(** * A price-time-priority matching engine: order book and engine controller

    Shallow embedding of [Order.h], [Trade.h], [OrderBook.h] and
    [MatchingEngine.h], followed by the properties of the matching routine.

    Numbers.  The source stores prices and quantities in [double].  The
    matching code only adds, subtracts, compares and takes minima, so the
    model uses exact integers ([Z]): any finite family of doubles is a
    family of dyadic rationals, which a common power of two scales to
    integers.  Infinities and NaN are outside the model.  In this first,
    exact model sums and differences do not round and the two [int]
    counters are unbounded integers.

    The exact model and the code agree as long as every sum and
    difference formed stays within 53 bits of the common unit and the
    counters stay within [int].  A statement that depends on the value of
    a sum, a difference or a counter is therefore made about the second
    model below ([processOrder_r] and its companions): the same code over
    any addition, subtraction and counter increment, instantiated with
    round-to-nearest-even at 53 bits ([double_add], [double_sub]) and the
    wrapping [int32_succ].  The statements about the request handler
    carry the range of the order counter as a hypothesis. *)

From Stdlib Require Import ZArith List Bool Lia Sorted.
From stdpp Require Import gmap strings pretty sorting.
Import ListNotations.
Local Open Scope Z_scope.

(** ** Order.h *)

Inductive Side := Buy | Sell.

Inductive OrderType := Market | Limit | IOC | FOK.

Definition OrderType_eqb (a b : OrderType) : bool :=
  match a, b with
  | Market, Market | Limit, Limit | IOC, IOC | FOK, FOK => true
  | _, _ => false
  end.

(** The private members of [class Order], named after their getters. *)
Record Order := mkOrder {
  getOrderID : Z;
  getType : OrderType;
  getSide : Side;
  getPrice : Z;
  getQuantity : Z;
  getSymbol : string
}.

Definition setQuantity (o : Order) (q : Z) : Order :=
  {| getOrderID := getOrderID o; getType := getType o; getSide := getSide o;
     getPrice := getPrice o; getQuantity := q; getSymbol := getSymbol o |}.

(** [Order::reduceQuantity]: a no-op when [amount] exceeds the quantity. *)
Definition reduceQuantity (o : Order) (amount : Z) : Order :=
  if amount <=? getQuantity o then setQuantity o (getQuantity o - amount) else o.

(** ** Trade.h *)

Record Trade := mkTrade {
  tradeID : Z;
  makerOrderID : Z;
  takerOrderID : Z;
  price : Z;
  quantity : Z;
  aggressorSide : Side;
  symbol : string
}.

(** ** OrderBook.h *)

(** [std::map<double, std::list<Order>, Compare>]: the levels in iteration
    order, so that the head of the list is [begin()].  [PriceMap_push]
    below is the only operation that adds a key and it keeps the list
    ordered by the comparator and free of duplicate keys. *)
Definition PriceMap := list (Z * list Order).

(** The comparator of the map that holds the orders of side [s]:
    [std::less] for [asks_], [std::greater] for [bids_]. *)
Definition key_before (s : Side) (a b : Z) : bool :=
  match s with
  | Sell => a <? b
  | Buy => b <? a
  end.

(** [m[k].push_back(o)]: [operator[]] finds the level or creates it with an
    empty list, and the order goes to the back of that list. *)
Fixpoint PriceMap_push (s : Side) (m : PriceMap) (k : Z) (o : Order) : PriceMap :=
  match m with
  | [] => [(k, [o])]
  | (k', q) :: m' =>
      if key_before s k k' then (k, [o]) :: m
      else if key_before s k' k then (k', q) :: PriceMap_push s m' k o
      else (k', q ++ [o]) :: m'
  end.

Record OrderBook := mkBook {
  asks_ : PriceMap;
  bids_ : PriceMap
}.

Definition empty_book : OrderBook := {| asks_ := []; bids_ := [] |}.

Record BBO := mkBBO { bestBid : Z; bestAsk : Z }.

(** [OrderBook::getBBO]: the keys of the two [begin()] levels. *)
Definition getBBO (b : OrderBook) : option BBO :=
  match bids_ b, asks_ b with
  | (pb, _) :: _, (pa, _) :: _ => Some {| bestBid := pb; bestAsk := pa |}
  | _, _ => None
  end.

(** The variables of one run of the [while] loop of [matchBuyOrder] or
    [matchSellOrder]: the taker, the opposite side of the book, the trades
    emitted so far and the static counter [Trade::next_trade_id]. *)
Record MatchState := mkMatch {
  taker : Order;
  opposite : PriceMap;
  trades : list Trade;
  next_trade_id : Z
}.

(** One evaluation of the loop condition and body. *)
Inductive StepResult :=
| LoopExit                      (* condition false, or [break] *)
| LoopUndefined                 (* [front()] of an empty list *)
| LoopNext (st : MatchState).   (* the body ran to its end *)

(** The test guarding [break]: [buyOrder.getPrice() < restingAsk.getPrice()]
    for a buy taker, [sellOrder.getPrice() > restingBid.getPrice()] for a
    sell taker. *)
Definition price_worse (aggressor : Side) (taker_price resting_price : Z) : bool :=
  match aggressor with
  | Buy => taker_price <? resting_price
  | Sell => resting_price <? taker_price
  end.

(** The body shared by [matchBuyOrder] ([aggressor = Buy], [opposite] is
    [asks_]) and [matchSellOrder] ([aggressor = Sell], [opposite] is
    [bids_]); the two source functions differ in nothing else. *)
Definition match_step (aggressor : Side) (st : MatchState) : StepResult :=
  if negb (0 <? getQuantity (taker st)) then LoopExit
  else
    match opposite st with
    | [] => LoopExit
    | (key, queue) :: others =>
        match queue with
        | [] => LoopUndefined
        | resting :: queue_tail =>
            if OrderType_eqb (getType (taker st)) Limit
               && price_worse aggressor (getPrice (taker st)) (getPrice resting)
            then LoopExit
            else
              let tradeQuantity :=
                Z.min (getQuantity (taker st)) (getQuantity resting) in
              let t := {| tradeID := next_trade_id st;
                          makerOrderID := getOrderID resting;
                          takerOrderID := getOrderID (taker st);
                          price := getPrice resting;
                          quantity := tradeQuantity;
                          aggressorSide := aggressor;
                          symbol := getSymbol resting |} in
              let resting' := reduceQuantity resting tradeQuantity in
              let taker' := reduceQuantity (taker st) tradeQuantity in
              let queue' :=
                if getQuantity resting' =? 0 then queue_tail
                else resting' :: queue_tail in
              let opposite' :=
                match queue' with
                | [] => others
                | _ :: _ => (key, queue') :: others
                end in
              LoopNext {| taker := taker';
                          opposite := opposite';
                          trades := trades st ++ [t];
                          next_trade_id := next_trade_id st + 1 |}
        end
    end.

(** The [while] loop, at most [fuel] evaluations of its condition.  [None]
    stands for a run without a result: the fuel ran out, or the body
    reached [front()] of an empty list. *)
Fixpoint match_loop (aggressor : Side) (fuel : nat) (st : MatchState)
  : option MatchState :=
  match fuel with
  | O => None
  | S fuel' =>
      match match_step aggressor st with
      | LoopExit => Some st
      | LoopUndefined => None
      | LoopNext st' => match_loop aggressor fuel' st'
      end
  end.

(** Number of resting orders of one side.  Every run of the body either
    pops one of them or brings the taker to zero, so one more evaluation
    of the condition than there are resting orders ends the loop
    ([match_loop_enough_fuel]). *)
Definition order_count (m : PriceMap) : nat :=
  fold_right (fun lv n => (length (snd lv) + n)%nat) O m.

Definition matchBuyOrder (b : OrderBook) (buyOrder : Order) (ts : list Trade) (tid : Z)
  : option (OrderBook * Order * list Trade * Z) :=
  match match_loop Buy (S (order_count (asks_ b)))
          {| taker := buyOrder; opposite := asks_ b; trades := ts; next_trade_id := tid |} with
  | Some st => Some ({| asks_ := opposite st; bids_ := bids_ b |},
                     taker st, trades st, next_trade_id st)
  | None => None
  end.

Definition matchSellOrder (b : OrderBook) (sellOrder : Order) (ts : list Trade) (tid : Z)
  : option (OrderBook * Order * list Trade * Z) :=
  match match_loop Sell (S (order_count (bids_ b)))
          {| taker := sellOrder; opposite := bids_ b; trades := ts; next_trade_id := tid |} with
  | Some st => Some ({| asks_ := asks_ b; bids_ := opposite st |},
                     taker st, trades st, next_trade_id st)
  | None => None
  end.

(** [OrderBook::addLimitOrder]. *)
Definition addLimitOrder (b : OrderBook) (order : Order) : OrderBook :=
  match getSide order with
  | Buy => {| asks_ := asks_ b; bids_ := PriceMap_push Buy (bids_ b) (getPrice order) order |}
  | Sell => {| asks_ := PriceMap_push Sell (asks_ b) (getPrice order) order; bids_ := bids_ b |}
  end.

(** The inner [for] of [canFOKfill]: add the quantities of one level. *)
Definition level_quantity (acc : Z) (q : list Order) : Z :=
  fold_left (fun total o => total + getQuantity o) q acc.

(** The outer [for] of [canFOKfill] over the opposite side, with
    [quantity_available] as accumulator; the [continue] test is
    [price_level > order.getPrice()] for a buy and [price_level <
    order.getPrice()] for a sell, both behind [getType() == Limit]. *)
Fixpoint canFOKfill_scan (order : Order) (levels : PriceMap) (quantity_available : Z)
  : bool :=
  match levels with
  | [] => getQuantity order <=? quantity_available
  | (price_level, q) :: rest =>
      if OrderType_eqb (getType order) Limit
         && price_worse (getSide order) (getPrice order) price_level
      then canFOKfill_scan order rest quantity_available
      else
        let quantity_available' := level_quantity quantity_available q in
        if getQuantity order <=? quantity_available' then true
        else canFOKfill_scan order rest quantity_available'
  end.

Definition canFOKfill (b : OrderBook) (order : Order) : bool :=
  match getSide order with
  | Buy => canFOKfill_scan order (asks_ b) 0
  | Sell => canFOKfill_scan order (bids_ b) 0
  end.

(** [OrderBook::processOrder].  The result carries the trades, the order as
    the caller sees it afterwards (it is passed by reference), the book
    and the trade counter. *)
Definition processOrder (b : OrderBook) (order : Order) (tid : Z)
  : option (list Trade * Order * OrderBook * Z) :=
  if OrderType_eqb (getType order) FOK && negb (canFOKfill b order)
  then Some ([], order, b, tid)
  else
    match (match getSide order with
           | Buy => matchBuyOrder b order [] tid
           | Sell => matchSellOrder b order [] tid
           end) with
    | None => None
    | Some (b', order', ts, tid') =>
        let b'' :=
          if (0 <? getQuantity order') && OrderType_eqb (getType order') Limit
          then addLimitOrder b' order'
          else b' in
        Some (ts, order', b'', tid')
    end.

(** ** MatchingEngine.h *)

(** The part of [nlohmann::json] that [getBookDepthAsJson] builds: arrays
    and strings. *)
#[local] Unset Elimination Schemes.
Inductive json :=
| JString (s : string)
| JArray (items : list json).
#[local] Set Elimination Schemes.

(** What the engine hands to its broadcast helpers.  Each event is written
    to every sink subscribed to its channel; the sink lists and the mutex
    that guards them are not modelled. *)
Inductive Event :=
| TradeEvent (t : Trade)
| MarketDataEvent (sym : string) (bbo : option BBO) (bids asks : json).

Definition is_market_data (e : Event) : bool :=
  match e with
  | MarketDataEvent _ _ _ _ => true
  | TradeEvent _ => false
  end.

Record MatchingEngine := mkEngine {
  order_books_ : gmap string OrderBook
}.

(** [order_books_[symbol]] as it reads: the book, or the empty book that
    [operator[]] creates. *)
Definition book_of (e : MatchingEngine) (sym : string) : OrderBook :=
  default empty_book (order_books_ e !! sym).

Section Engine.

(** [std::to_string(double)] and [nlohmann::json::dump()] belong to
    libraries outside the repository; the engine is modelled over any
    pair of such functions. *)
Variable to_string : Z -> string.
Variable dump : json -> string.

(** The [for] over one side in [getBookDepthAsJson]; [count] is the
    local counter, tested by [count++ >= n]. *)
Fixpoint depth_rows (n count : Z) (levels : PriceMap) : list json :=
  match levels with
  | [] => []
  | (level_price, orders_at_price) :: rest =>
      if n <=? count then []
      else
        let total_quantity := level_quantity 0 orders_at_price in
        JArray [JString (to_string level_price); JString (to_string total_quantity)]
          :: depth_rows n (count + 1) rest
  end.

Definition getBookDepthAsJson (b : OrderBook) (n : Z) (side : Side) : json :=
  match side with
  | Buy => JArray (depth_rows n 0 (bids_ b))
  | Sell => JArray (depth_rows n 0 (asks_ b))
  end.

(** [broadcast_trades]: one message per trade, in order. *)
Definition broadcast_trades (ts : list Trade) : list Event :=
  map TradeEvent ts.

(** [broadcast_market_data]: one message. *)
Definition broadcast_market_data (sym : string) (b : OrderBook) : list Event :=
  [MarketDataEvent sym (getBBO b)
     (getBookDepthAsJson b 10 Buy) (getBookDepthAsJson b 10 Sell)].

(** [MatchingEngine::process]: the events broadcast, the order as the
    caller sees it afterwards, the engine and the trade counter. *)
Definition process (e : MatchingEngine) (order : Order) (tid : Z)
  : option (list Event * Order * MatchingEngine * Z) :=
  let sym := getSymbol order in
  let book := book_of e sym in
  let old_asks_depth := getBookDepthAsJson book 10 Sell in
  let old_bids_depth := getBookDepthAsJson book 10 Buy in
  match processOrder book order tid with
  | None => None
  | Some (ts, order', book', tid') =>
      let trade_events :=
        match ts with
        | [] => []
        | _ :: _ => broadcast_trades ts
        end in
      let new_asks_depth := getBookDepthAsJson book' 10 Sell in
      let new_bids_depth := getBookDepthAsJson book' 10 Buy in
      let depth_events :=
        if negb (String.eqb (dump old_asks_depth) (dump new_asks_depth))
           || negb (String.eqb (dump old_bids_depth) (dump new_bids_depth))
        then broadcast_market_data sym book'
        else [] in
      Some (trade_events ++ depth_events, order',
            {| order_books_ := <[sym := book']> (order_books_ e) |}, tid')
  end.

End Engine.

(** A formatter pair for integral values, used to run the engine:
    [std::to_string] prints a double with six decimals, and [dump()]
    prints arrays and quoted strings without spaces (none of the strings
    built here needs escaping). *)
Definition to_string_integral (z : Z) : string :=
  (pretty z ++ ".000000")%string.

Definition quote_mark : string := String (Ascii.ascii_of_nat 34) EmptyString.

Fixpoint join_with (sep : string) (l : list string) : string :=
  match l with
  | [] => EmptyString
  | [x] => x
  | x :: rest => (x ++ sep ++ join_with sep rest)%string
  end.

Fixpoint dump_compact (j : json) : string :=
  match j with
  | JString s => (quote_mark ++ s ++ quote_mark)%string
  | JArray items => ("[" ++ join_with "," (map dump_compact items) ++ "]")%string
  end.

(** ** Vocabulary of the statements *)

(** The side of the book a taker of side [s] rests on, and the side it
    matches against. *)
Definition own_side (s : Side) (b : OrderBook) : PriceMap :=
  match s with Buy => bids_ b | Sell => asks_ b end.

Definition opp_side (s : Side) (b : OrderBook) : PriceMap :=
  match s with Buy => asks_ b | Sell => bids_ b end.

(** The resting orders of one side in price-time order: level after level
    from [begin()], each queue from front to back. *)
Definition priority_order (m : PriceMap) : list Order :=
  concat (map snd m).

(** The queue stored under key [k], empty when there is no such level. *)
Fixpoint queue_at (m : PriceMap) (k : Z) : list Order :=
  match m with
  | [] => []
  | (k', q) :: m' => if k' =? k then q else queue_at m' k
  end.

Definition trade_total (ts : list Trade) : Z :=
  fold_right (fun t acc => quantity t + acc) 0 ts.

Definition side_total (m : PriceMap) : Z :=
  fold_right (fun o acc => getQuantity o + acc) 0 (priority_order m).

(** The quantity resting at the levels a FOK order of the given side and
    limit price may trade with, in the words of the specification: for a
    buy the levels priced at or below the limit, for a sell those at or
    above. *)
Definition eligible_quantity (order : Order) (levels : PriceMap) : Z :=
  side_total
    (List.filter
       (fun lv => negb (price_worse (getSide order) (getPrice order) (fst lv)))
       levels).


(** Invariants of the book between calls. *)
Definition resting_ok (s : Side) (k : Z) (o : Order) : Prop :=
  getPrice o = k /\ 0 < getQuantity o /\ getType o = Limit /\ getSide o = s.

Definition level_ok (s : Side) (lv : Z * list Order) : Prop :=
  snd lv <> [] /\ Forall (resting_ok s (fst lv)) (snd lv).

Definition side_ok (s : Side) (m : PriceMap) : Prop :=
  StronglySorted (fun a b => key_before s (fst a) (fst b) = true) m
  /\ Forall (level_ok s) m.

Definition crossed_free (b : OrderBook) : Prop :=
  forall pb qb pa qa,
    In (pb, qb) (bids_ b) -> In (pa, qa) (asks_ b) -> pb < pa.

Definition book_ok (b : OrderBook) : Prop :=
  side_ok Sell (asks_ b) /\ side_ok Buy (bids_ b) /\ crossed_free b.

(** The books the code can hold: the empty book of a new symbol, and what
    [processOrder] makes of a reachable book for any order at all. *)
Inductive reachable : OrderBook -> Prop :=
| reachable_empty : reachable empty_book
| reachable_process b order tid ts order' b' tid' :
    reachable b ->
    processOrder b order tid = Some (ts, order', b', tid') ->
    reachable b'.

(** A run of the loop as a relation: the exit state of the run that
    starts in a given state. *)
Inductive loop_run (aggressor : Side) : MatchState -> MatchState -> Prop :=
| run_exit st :
    match_step aggressor st = LoopExit -> loop_run aggressor st st
| run_next st st1 st' :
    match_step aggressor st = LoopNext st1 ->
    loop_run aggressor st1 st' ->
    loop_run aggressor st st'.

(** No level holds an empty queue: what [front()] relies on. *)
Definition queues_nonempty (m : PriceMap) : Prop :=
  Forall (fun lv : Z * list Order => snd lv <> []) m.

Definition other_side (s : Side) : Side :=
  match s with Buy => Sell | Sell => Buy end.

(** The loop variables as [processOrder] sets them up. *)
Definition start_state (b : OrderBook) (o : Order) (tid : Z) : MatchState :=
  {| taker := o; opposite := opp_side (getSide o) b; trades := [];
     next_trade_id := tid |}.

(** No crossing, seen from side [s]: every opposite key lies beyond every
    own key in the own side's order. *)
Definition apart (s : Side) (own opp : PriceMap) : Prop :=
  forall ko qo kp qp,
    In (ko, qo) own -> In (kp, qp) opp -> key_before s kp ko = true.

(** ** Concrete orders and books for the examples *)

Definition ord (id : Z) (t : OrderType) (s : Side) (q p : Z) : Order :=
  {| getOrderID := id; getType := t; getSide := s; getPrice := p;
     getQuantity := q; getSymbol := "BTC-USDT" |}.

Definition book_ask_100 : OrderBook :=
  {| asks_ := [(100, [ord 1 Limit Sell 5 100])]; bids_ := [] |}.

Definition book_3_far : OrderBook :=
  {| asks_ := [(100, [ord 1 Limit Sell 3 100]); (200, [ord 2 Limit Sell 3 200])];
     bids_ := [] |}.

Definition book_3_3 : OrderBook :=
  {| asks_ := [(100, [ord 1 Limit Sell 3 100]); (101, [ord 2 Limit Sell 3 101])];
     bids_ := [] |}.

(** ** The same code over arithmetic that may round *)

(** A [double] whose value is [z] units.  [round53] is round-to-nearest,
    ties-to-even, to a significand of 53 bits: the rounding of IEEE-754
    binary64 on numbers that are whole multiples of the unit (no
    overflow of the exponent is modelled). *)
Definition round53 (z : Z) : Z :=
  let a := Z.abs z in
  if a <? 2 ^ 53 then z
  else
    let e := Z.log2 a - 52 in
    let m := a / 2 ^ e in
    let r := a mod 2 ^ e in
    let half := 2 ^ (e - 1) in
    let m' := if (half <? r) || ((r =? half) && Z.odd m) then m + 1 else m in
    Z.sgn z * (m' * 2 ^ e).

Definition double_add (a b : Z) : Z := round53 (a + b).
Definition double_sub (a b : Z) : Z := round53 (a - b).

(** [++] on a 32-bit [int] as the usual targets compute it, wrapping
    from [INT_MAX] to [INT_MIN] (the language leaves that case open). *)
Definition INT_MAX : Z := 2147483647.
Definition INT_MIN : Z := -2147483648.
Definition int32_succ (z : Z) : Z := (z + 1 - INT_MIN) mod 2 ^ 32 + INT_MIN.

Section Rounded.

(** [+] and [-] on [double], and [++] on [int]. *)
Variable dadd dsub : Z -> Z -> Z.
Variable int_succ : Z -> Z.

(** [Order::reduceQuantity]. *)
Definition reduceQuantity_r (o : Order) (amount : Z) : Order :=
  if amount <=? getQuantity o
  then setQuantity o (dsub (getQuantity o) amount)
  else o.

(** The body of the loop of [matchBuyOrder] and [matchSellOrder]. *)
Definition match_step_r (aggressor : Side) (st : MatchState) : StepResult :=
  if negb (0 <? getQuantity (taker st)) then LoopExit
  else
    match opposite st with
    | [] => LoopExit
    | (key, queue) :: others =>
        match queue with
        | [] => LoopUndefined
        | resting :: queue_tail =>
            if OrderType_eqb (getType (taker st)) Limit
               && price_worse aggressor (getPrice (taker st)) (getPrice resting)
            then LoopExit
            else
              let tradeQuantity :=
                Z.min (getQuantity (taker st)) (getQuantity resting) in
              let t := {| tradeID := next_trade_id st;
                          makerOrderID := getOrderID resting;
                          takerOrderID := getOrderID (taker st);
                          price := getPrice resting;
                          quantity := tradeQuantity;
                          aggressorSide := aggressor;
                          symbol := getSymbol resting |} in
              let resting' := reduceQuantity_r resting tradeQuantity in
              let taker' := reduceQuantity_r (taker st) tradeQuantity in
              let queue' :=
                if getQuantity resting' =? 0 then queue_tail
                else resting' :: queue_tail in
              let opposite' :=
                match queue' with
                | [] => others
                | _ :: _ => (key, queue') :: others
                end in
              LoopNext {| taker := taker';
                          opposite := opposite';
                          trades := trades st ++ [t];
                          next_trade_id := int_succ (next_trade_id st) |}
        end
    end.

Fixpoint match_loop_r (aggressor : Side) (fuel : nat) (st : MatchState)
  : option MatchState :=
  match fuel with
  | O => None
  | S fuel' =>
      match match_step_r aggressor st with
      | LoopExit => Some st
      | LoopUndefined => None
      | LoopNext st' => match_loop_r aggressor fuel' st'
      end
  end.

Definition matchBuyOrder_r (b : OrderBook) (buyOrder : Order) (ts : list Trade) (tid : Z)
  : option (OrderBook * Order * list Trade * Z) :=
  match match_loop_r Buy (S (order_count (asks_ b)))
          {| taker := buyOrder; opposite := asks_ b; trades := ts; next_trade_id := tid |} with
  | Some st => Some ({| asks_ := opposite st; bids_ := bids_ b |},
                     taker st, trades st, next_trade_id st)
  | None => None
  end.

Definition matchSellOrder_r (b : OrderBook) (sellOrder : Order) (ts : list Trade) (tid : Z)
  : option (OrderBook * Order * list Trade * Z) :=
  match match_loop_r Sell (S (order_count (bids_ b)))
          {| taker := sellOrder; opposite := bids_ b; trades := ts; next_trade_id := tid |} with
  | Some st => Some ({| asks_ := asks_ b; bids_ := opposite st |},
                     taker st, trades st, next_trade_id st)
  | None => None
  end.

(** The accumulation [total += order.getQuantity()], front to back. *)
Definition level_quantity_r (acc : Z) (q : list Order) : Z :=
  fold_left (fun total o => dadd total (getQuantity o)) q acc.

Fixpoint canFOKfill_scan_r (order : Order) (levels : PriceMap) (quantity_available : Z)
  : bool :=
  match levels with
  | [] => getQuantity order <=? quantity_available
  | (price_level, q) :: rest =>
      if OrderType_eqb (getType order) Limit
         && price_worse (getSide order) (getPrice order) price_level
      then canFOKfill_scan_r order rest quantity_available
      else
        let quantity_available' := level_quantity_r quantity_available q in
        if getQuantity order <=? quantity_available' then true
        else canFOKfill_scan_r order rest quantity_available'
  end.

Definition canFOKfill_r (b : OrderBook) (order : Order) : bool :=
  match getSide order with
  | Buy => canFOKfill_scan_r order (asks_ b) 0
  | Sell => canFOKfill_scan_r order (bids_ b) 0
  end.

Definition processOrder_r (b : OrderBook) (order : Order) (tid : Z)
  : option (list Trade * Order * OrderBook * Z) :=
  if OrderType_eqb (getType order) FOK && negb (canFOKfill_r b order)
  then Some ([], order, b, tid)
  else
    match (match getSide order with
           | Buy => matchBuyOrder_r b order [] tid
           | Sell => matchSellOrder_r b order [] tid
           end) with
    | None => None
    | Some (b', order', ts, tid') =>
        let b'' :=
          if (0 <? getQuantity order') && OrderType_eqb (getType order') Limit
          then addLimitOrder b' order'
          else b' in
        Some (ts, order', b'', tid')
    end.

Variable to_string : Z -> string.
Variable dump : json -> string.

Fixpoint depth_rows_r (n count : Z) (levels : PriceMap) : list json :=
  match levels with
  | [] => []
  | (level_price, orders_at_price) :: rest =>
      if n <=? count then []
      else
        let total_quantity := level_quantity_r 0 orders_at_price in
        JArray [JString (to_string level_price); JString (to_string total_quantity)]
          :: depth_rows_r n (count + 1) rest
  end.

Definition getBookDepthAsJson_r (b : OrderBook) (n : Z) (side : Side) : json :=
  match side with
  | Buy => JArray (depth_rows_r n 0 (bids_ b))
  | Sell => JArray (depth_rows_r n 0 (asks_ b))
  end.

Definition broadcast_market_data_r (sym : string) (b : OrderBook) : list Event :=
  [MarketDataEvent sym (getBBO b)
     (getBookDepthAsJson_r b 10 Buy) (getBookDepthAsJson_r b 10 Sell)].

Definition process_r (e : MatchingEngine) (order : Order) (tid : Z)
  : option (list Event * Order * MatchingEngine * Z) :=
  let sym := getSymbol order in
  let book := book_of e sym in
  let old_asks_depth := getBookDepthAsJson_r book 10 Sell in
  let old_bids_depth := getBookDepthAsJson_r book 10 Buy in
  match processOrder_r book order tid with
  | None => None
  | Some (ts, order', book', tid') =>
      let trade_events :=
        match ts with
        | [] => []
        | _ :: _ => broadcast_trades ts
        end in
      let new_asks_depth := getBookDepthAsJson_r book' 10 Sell in
      let new_bids_depth := getBookDepthAsJson_r book' 10 Buy in
      let depth_events :=
        if negb (String.eqb (dump old_asks_depth) (dump new_asks_depth))
           || negb (String.eqb (dump old_bids_depth) (dump new_bids_depth))
        then broadcast_market_data_r sym book'
        else [] in
      Some (trade_events ++ depth_events, order',
            {| order_books_ := <[sym := book']> (order_books_ e) |}, tid')
  end.

(** One row of a depth array as the code builds it: the formatted price
    of a level and the formatted result of accumulating, front to back,
    the remaining quantities queued there. *)
Definition level_row_r (lv : Z * list Order) : json :=
  JArray [JString (to_string (fst lv));
          JString (to_string (level_quantity_r 0 (snd lv)))].

(** The dumped depth of the first ten levels of one side. *)
Definition top10_text (b : OrderBook) (side : Side) : string :=
  dump (JArray (map level_row_r (firstn 10 (own_side side b)))).

(** What is left of an order after the given trades, each taken off by
    [reduceQuantity]. *)
Definition remaining_after (o : Order) (earlier : list Trade) : Z :=
  getQuantity
    (fold_left (fun ord tr => reduceQuantity_r ord (quantity tr)) earlier o).

(** A run of the loop, as for the exact model. *)
Inductive loop_run_r (aggressor : Side) : MatchState -> MatchState -> Prop :=
| run_r_exit st :
    match_step_r aggressor st = LoopExit -> loop_run_r aggressor st st
| run_r_next st st1 st' :
    match_step_r aggressor st = LoopNext st1 ->
    loop_run_r aggressor st1 st' ->
    loop_run_r aggressor st st'.

(** The books and the engines this code can hold, as for the exact
    model. *)
Inductive reachable_r : OrderBook -> Prop :=
| reachable_r_empty : reachable_r empty_book
| reachable_r_process b order tid ts order' b' tid' :
    reachable_r b ->
    processOrder_r b order tid = Some (ts, order', b', tid') ->
    reachable_r b'.

Inductive engine_reachable_r : MatchingEngine -> Prop :=
| engine_r_new : engine_reachable_r {| order_books_ := ∅ |}
| engine_r_process e order tid evs order' e' tid' :
    engine_reachable_r e ->
    process_r e order tid = Some (evs, order', e', tid') ->
    engine_reachable_r e'.

End Rounded.

(** Books with quantities beyond 53 bits. *)
Definition book_big_3 : OrderBook :=
  {| asks_ := [(100, [ord 1 Limit Sell (2 ^ 53) 100]); (101, [ord 2 Limit Sell 3 101])];
     bids_ := [] |}.

Definition book_1_big : OrderBook :=
  {| asks_ := [(100, [ord 1 Limit Sell 1 100; ord 2 Limit Sell (2 ^ 53 + 2) 100])];
     bids_ := [] |}.

(** ** Further vocabulary: depth rows, identifiers, the engine over time *)

(** The orders resting in a book, asks then bids. *)
Definition resting_orders (b : OrderBook) : list Order :=
  priority_order (asks_ b) ++ priority_order (bids_ b).

(** The identifiers of the orders resting in a book, asks then bids. *)
Definition resting_ids (b : OrderBook) : list Z :=
  map getOrderID (priority_order (asks_ b) ++ priority_order (bids_ b)).

(** The engines the code can hold: the new engine, and what [process]
    makes of a reachable engine for any order. *)
Inductive engine_reachable (to_string : Z -> string) (dump : json -> string)
  : MatchingEngine -> Prop :=
| engine_new : engine_reachable to_string dump {| order_books_ := ∅ |}
| engine_process e order tid evs order' e' tid' :
    engine_reachable to_string dump e ->
    process to_string dump e order tid = Some (evs, order', e', tid') ->
    engine_reachable to_string dump e'.

(** ** main.cpp *)

(** [StringToSide]; the right injection carries the message of the
    [std::invalid_argument] thrown. *)
Definition StringToSide (s : string) : Side + string :=
  if String.eqb s "buy" then inl Buy
  else if String.eqb s "sell" then inl Sell
  else inr ("Invalid side specified: '" ++ s ++ "'. Must be 'buy' or 'sell'.")%string.

(** [StringToOrderType]. *)
Definition StringToOrderType (s : string) : OrderType + string :=
  if String.eqb s "market" then inl Market
  else if String.eqb s "limit" then inl Limit
  else if String.eqb s "ioc" then inl IOC
  else if String.eqb s "fok" then inl FOK
  else inr ("Invalid order_type specified: '" ++ s ++ "'.")%string.

(** The texts the two converters accept. *)
Definition order_type_texts : list string := ["market"; "limit"; "ioc"; "fok"]%string.
Definition side_texts : list string := ["buy"; "sell"]%string.

(** The text [broadcast_trades] stores under ["aggressor_side"]. *)
Definition aggressor_side_text (s : Side) : string :=
  match s with Buy => "buy" | Sell => "sell" end.

(** The constructor of [Order]: the identifier is the static counter
    [next_order_id_], which it increments. *)
Definition Order_new (next_order_id_ : Z) (type : OrderType) (side : Side)
    (quantity : Z) (sym : string) (price : Z) : Order * Z :=
  ({| getOrderID := next_order_id_; getType := type; getSide := side;
      getPrice := price; getQuantity := quantity; getSymbol := sym |},
   next_order_id_ + 1).

(** What [main] keeps between requests: the engine and the two static
    counters. *)
Record Server := mkServer {
  engine : MatchingEngine;
  Order_next_order_id_ : Z;
  Trade_next_trade_id : Z
}.

Inductive Response :=
| OrderReceived (order_id : Z)        (* status 200 *)
| BadRequest (message : string).      (* status 400 *)

(** The [try] block of [order_handler] from the point where the body has
    yielded its five values: [symbol], [order_type], [side], [quantity]
    and [price] (0.0 when the key is absent).  The exceptions of the JSON
    library itself (unparsable body, missing key, wrong type) are outside
    the model. *)
Definition order_handler (to_string : Z -> string) (dump : json -> string)
    (srv : Server) (sym order_type side : string) (quantity price : Z)
  : option (Response * list Event * Server) :=
  match StringToOrderType order_type with
  | inr message => Some (BadRequest message, [], srv)
  | inl type =>
      match StringToSide side with
      | inr message => Some (BadRequest message, [], srv)
      | inl sd =>
          let '(order, next_id) :=
            Order_new (Order_next_order_id_ srv) type sd quantity sym price in
          let order_id := getOrderID order in
          match process to_string dump (engine srv) order (Trade_next_trade_id srv) with
          | None => None
          | Some (evs, _, e', tid') =>
              Some (OrderReceived order_id, evs,
                    {| engine := e'; Order_next_order_id_ := next_id;
                       Trade_next_trade_id := tid' |})
          end
      end
  end.

(** The states of the server: it starts with a new engine and the two
    counters at their initial values (two [int]s defined outside the
    files at hand), and moves by [order_handler]. *)
Inductive server_reachable (to_string : Z -> string) (dump : json -> string)
  : Server -> Prop :=
| server_start first_order_id first_trade_id :
    INT_MIN <= first_order_id <= INT_MAX ->
    INT_MIN <= first_trade_id <= INT_MAX ->
    server_reachable to_string dump
      {| engine := {| order_books_ := ∅ |};
         Order_next_order_id_ := first_order_id;
         Trade_next_trade_id := first_trade_id |}
| server_request srv sym order_type side quantity price resp evs srv' :
    server_reachable to_string dump srv ->
    order_handler to_string dump srv sym order_type side quantity price
    = Some (resp, evs, srv') ->
    server_reachable to_string dump srv'.

Definition engine_one_ask : MatchingEngine :=
  {| order_books_ :=
       <["BTC-USDT" := {| asks_ := [(100, [ord 1 Limit Sell 3 100])]; bids_ := [] |}]> ∅ |}.

Definition server_one_ask : Server :=
  {| engine := engine_one_ask; Order_next_order_id_ := 2; Trade_next_trade_id := 1 |}.

(** ** Scenarios of the specification, run on the model *)

Example scenario_S1 :
  processOrder {| asks_ := [(100, [ord 1 Limit Sell 10 100])]; bids_ := [] |}
               (ord 2 Limit Buy 4 101) 1
  = Some ([mkTrade 1 1 2 100 4 Buy "BTC-USDT"], ord 2 Limit Buy 0 101,
          {| asks_ := [(100, [ord 1 Limit Sell 6 100])]; bids_ := [] |}, 2).
Proof. reflexivity. Qed.

Example scenario_S3 :
  processOrder book_3_3 (ord 3 FOK Buy 10 101) 1
  = Some ([], ord 3 FOK Buy 10 101, book_3_3, 1).
Proof. reflexivity. Qed.

Example scenario_S4 :
  processOrder book_3_3 (ord 3 FOK Buy 6 101) 1
  = Some ([mkTrade 1 1 3 100 3 Buy "BTC-USDT"; mkTrade 2 2 3 101 3 Buy "BTC-USDT"],
          ord 3 FOK Buy 0 101, empty_book, 3).
Proof. reflexivity. Qed.

(** ** The loop body *)

Ltac bool_to_Z :=
  repeat match goal with
  | H : _ && _ = true |- _ => apply andb_true_iff in H; destruct H
  | H : _ && _ = false |- _ => apply andb_false_iff in H
  | H : negb _ = true |- _ => apply negb_true_iff in H
  | H : negb _ = false |- _ => apply negb_false_iff in H
  | H : (_ <? _) = true |- _ => apply Z.ltb_lt in H
  | H : (_ <? _) = false |- _ => apply Z.ltb_ge in H
  | H : (_ <=? _) = true |- _ => apply Z.leb_le in H
  | H : (_ <=? _) = false |- _ => apply Z.leb_gt in H
  | H : (_ =? _) = true |- _ => apply Z.eqb_eq in H
  | H : (_ =? _) = false |- _ => apply Z.eqb_neq in H
  end.

Lemma OrderType_eqb_eq a b : OrderType_eqb a b = true <-> a = b.
Proof. destruct a, b; simpl; split; congruence. Qed.

Lemma price_worse_key_before s p r : price_worse s p r = key_before s r p.
Proof. destruct s; reflexivity. Qed.

Lemma getQuantity_setQuantity o q : getQuantity (setQuantity o q) = q.
Proof. reflexivity. Qed.

(** What a completed run of the body does.  The quantity traded is the
    smaller of the two remaining quantities, so either the resting order
    is used up and popped, or it stays at the front, reduced, and the
    taker is left with nothing. *)
Lemma match_step_next s st st1 :
  match_step s st = LoopNext st1 ->
  exists key resting queue_tail others,
    opposite st = (key, resting :: queue_tail) :: others
    /\ 0 < getQuantity (taker st)
    /\ (getType (taker st) = Limit ->
        price_worse s (getPrice (taker st)) (getPrice resting) = false)
    /\ trades st1 = trades st ++
         [{| tradeID := next_trade_id st;
             makerOrderID := getOrderID resting;
             takerOrderID := getOrderID (taker st);
             price := getPrice resting;
             quantity := Z.min (getQuantity (taker st)) (getQuantity resting);
             aggressorSide := s;
             symbol := getSymbol resting |}]
    /\ next_trade_id st1 = next_trade_id st + 1
    /\ taker st1 = setQuantity (taker st)
         (getQuantity (taker st) - Z.min (getQuantity (taker st)) (getQuantity resting))
    /\ ((getQuantity resting <= getQuantity (taker st)
         /\ opposite st1 = match queue_tail with
                           | [] => others
                           | _ :: _ => (key, queue_tail) :: others
                           end)
        \/ (getQuantity (taker st) < getQuantity resting
            /\ opposite st1 =
               (key, setQuantity resting (getQuantity resting - getQuantity (taker st))
                       :: queue_tail) :: others)).
Proof.
  unfold match_step. intros H.
  destruct (0 <? getQuantity (taker st)) eqn:Hq; simpl in H; [|discriminate].
  destruct (opposite st) as [|[key queue] others]; [discriminate|].
  destruct queue as [|resting queue_tail]; [discriminate|].
  destruct (OrderType_eqb (getType (taker st)) Limit
            && price_worse s (getPrice (taker st)) (getPrice resting)) eqn:Hgate;
    [discriminate|].
  injection H as <-. bool_to_Z.
  exists key, resting, queue_tail, others. simpl.
  split; [reflexivity|]. split; [assumption|].
  split.
  { intros Ht. destruct Hgate as [Hg|Hg]; [|assumption].
    rewrite Ht in Hg. discriminate. }
  split; [reflexivity|]. split; [reflexivity|].
  split.
  { unfold reduceQuantity.
    destruct (Z.leb_spec (Z.min (getQuantity (taker st)) (getQuantity resting))
                (getQuantity (taker st))); [reflexivity|lia]. }
  unfold reduceQuantity.
  destruct (Z.leb_spec (Z.min (getQuantity (taker st)) (getQuantity resting))
              (getQuantity resting)); [|lia].
  rewrite getQuantity_setQuantity.
  destruct (Z.le_gt_cases (getQuantity resting) (getQuantity (taker st))) as [Hle|Hlt].
  - left. split; [assumption|].
    rewrite Z.min_r by assumption. rewrite Z.sub_diag. reflexivity.
  - right. split; [assumption|].
    rewrite Z.min_l by lia.
    destruct (Z.eqb_spec (getQuantity resting - getQuantity (taker st)) 0); [lia|].
    reflexivity.
Qed.

(** When the loop leaves: the taker is exhausted, the opposite side is
    empty, or a Limit taker meets a front order priced worse than its
    limit. *)
Lemma match_step_exit s st :
  match_step s st = LoopExit ->
  getQuantity (taker st) <= 0
  \/ opposite st = []
  \/ exists key resting queue_tail others,
       opposite st = (key, resting :: queue_tail) :: others
       /\ getType (taker st) = Limit
       /\ price_worse s (getPrice (taker st)) (getPrice resting) = true.
Proof.
  unfold match_step. intros H.
  destruct (0 <? getQuantity (taker st)) eqn:Hq; simpl in H; bool_to_Z; [|left; lia].
  destruct (opposite st) as [|[key queue] others]; [right; left; reflexivity|].
  destruct queue as [|resting queue_tail]; [discriminate|].
  destruct (OrderType_eqb (getType (taker st)) Limit
            && price_worse s (getPrice (taker st)) (getPrice resting)) eqn:Hgate;
    [|discriminate].
  bool_to_Z. right; right. exists key, resting, queue_tail, others.
  split; [reflexivity|]. split; [|assumption].
  now apply OrderType_eqb_eq.
Qed.

Lemma match_loop_run s fuel st st' :
  match_loop s fuel st = Some st' -> loop_run s st st'.
Proof.
  revert st. induction fuel as [|fuel IH]; intros st H; simpl in H; [discriminate|].
  destruct (match_step s st) as [| |st1] eqn:Hstep; [|discriminate|].
  - injection H as <-. now apply run_exit.
  - eapply run_next; eauto.
Qed.

Lemma loop_run_exit s st st' :
  loop_run s st st' -> match_step s st' = LoopExit.
Proof. induction 1; assumption. Qed.

(** A taker with nothing left to fill does not enter the loop. *)
Lemma match_step_no_quantity s st :
  getQuantity (taker st) <= 0 -> match_step s st = LoopExit.
Proof.
  intros H. unfold match_step.
  destruct (Z.ltb_spec 0 (getQuantity (taker st))); [lia|reflexivity].
Qed.

Lemma loop_run_no_quantity s st st' :
  loop_run s st st' -> getQuantity (taker st) <= 0 -> st' = st.
Proof.
  intros Hrun Hq. destruct Hrun as [st Hexit|st st1 st' Hstep _]; [reflexivity|].
  rewrite match_step_no_quantity in Hstep by assumption. discriminate.
Qed.

(** ** Termination of the loop *)

Lemma match_step_undefined s st :
  match_step s st = LoopUndefined ->
  exists key others, opposite st = (key, []) :: others.
Proof.
  unfold match_step. intros H.
  destruct (0 <? getQuantity (taker st)); simpl in H; [|discriminate].
  destruct (opposite st) as [|[key queue] others]; [discriminate|].
  destruct queue as [|resting queue_tail]; [eauto|].
  destruct (OrderType_eqb (getType (taker st)) Limit
            && price_worse s (getPrice (taker st)) (getPrice resting)); discriminate.
Qed.

Lemma order_count_cons k q m :
  order_count ((k, q) :: m) = (length q + order_count m)%nat.
Proof. reflexivity. Qed.

Lemma match_loop_enough_fuel s fuel st :
  queues_nonempty (opposite st) ->
  ((if (0 <? getQuantity (taker st))%Z then S (order_count (opposite st)) else 1)
   <= fuel)%nat ->
  exists st', match_loop s fuel st = Some st'.
Proof.
  revert st. induction fuel as [|fuel IH]; intros st Hne Hfuel.
  { destruct (0 <? getQuantity (taker st)); lia. }
  simpl. destruct (match_step s st) as [| |st1] eqn:Hstep.
  - eauto.
  - apply match_step_undefined in Hstep as (key & others & Hopp).
    rewrite Hopp in Hne. inversion Hne as [|? ? Hhd _]. now elim Hhd.
  - apply match_step_next in Hstep
      as (key & resting & queue_tail & others & Hopp & Hq & _ & _ & _ & Htaker & Hcase).
    rewrite Hopp in Hne, Hfuel. inversion Hne as [|? ? _ Hothers]; subst.
    destruct (Z.ltb_spec 0 (getQuantity (taker st))) as [_|]; [|lia].
    rewrite order_count_cons in Hfuel. cbn [length] in Hfuel.
    apply IH.
    + destruct Hcase as [[_ ->]|[_ ->]].
      * destruct queue_tail; [assumption|].
        constructor; [discriminate|assumption].
      * constructor; [discriminate|assumption].
    + destruct Hcase as [[_ ->]|[Hlt ->]].
      * destruct (0 <? getQuantity (taker st1)); [|lia].
        destruct queue_tail; rewrite ?order_count_cons; cbn [length] in *; lia.
      * rewrite Htaker, getQuantity_setQuantity, Z.min_l by lia.
        rewrite Z.sub_diag. simpl. lia.
Qed.

(** More fuel does not change the result: a run that returned has left
    the loop by its own condition. *)
Lemma match_loop_more_fuel s fuel fuel' st st' :
  match_loop s fuel st = Some st' ->
  (fuel <= fuel')%nat ->
  match_loop s fuel' st = Some st'.
Proof.
  revert fuel' st. induction fuel as [|fuel IH]; intros fuel' st H Hle;
    [discriminate|].
  destruct fuel' as [|fuel']; [lia|]. simpl in *.
  destruct (match_step s st); try assumption.
  apply IH; [assumption|lia].
Qed.

(** ** What a run of the loop does *)

Lemma setQuantity_same o : setQuantity o (getQuantity o) = o.
Proof. now destruct o. Qed.

(** Only the quantity of the taker changes. *)
Lemma loop_run_taker s st st' :
  loop_run s st st' ->
  taker st' = setQuantity (taker st) (getQuantity (taker st')).
Proof.
  induction 1 as [st _|st st1 st' Hstep _ IH].
  - symmetry. apply setQuantity_same.
  - apply match_step_next in Hstep
      as (key & resting & queue_tail & others & _ & _ & _ & _ & _ & Htaker & _).
    rewrite Htaker in IH. exact IH.
Qed.

Lemma trade_total_cons t ts : trade_total (t :: ts) = quantity t + trade_total ts.
Proof. reflexivity. Qed.

Lemma priority_order_cons k q m :
  priority_order ((k, q) :: m) = q ++ priority_order m.
Proof. reflexivity. Qed.

Lemma side_total_cons k o q m :
  side_total ((k, o :: q) :: m) = getQuantity o + side_total ((k, q) :: m).
Proof. reflexivity. Qed.

Lemma side_total_nil_level k m : side_total ((k, []) :: m) = side_total m.
Proof. reflexivity. Qed.

(** The trades of a run, read against the opposite side as it stood at
    the start: the [k]-th trade is made with the [k]-th resting order in
    price-time order, at that order's price, for the smaller of the two
    remaining quantities, and every trade but the last uses its resting
    order up.  The quantities traded are what the taker lost and what the
    opposite side lost. *)
Lemma loop_run_trades s st st' :
  loop_run s st st' ->
  exists new,
    trades st' = trades st ++ new
    /\ trade_total new = getQuantity (taker st) - getQuantity (taker st')
    /\ side_total (opposite st') = side_total (opposite st) - trade_total new
    /\ (0 <= getQuantity (taker st) -> 0 <= getQuantity (taker st'))
    /\ forall k t,
         nth_error new k = Some t ->
         exists m,
           nth_error (priority_order (opposite st)) k = Some m
           /\ makerOrderID t = getOrderID m
           /\ takerOrderID t = getOrderID (taker st)
           /\ price t = getPrice m
           /\ aggressorSide t = s
           /\ quantity t
              = Z.min (getQuantity (taker st) - trade_total (firstn k new))
                      (getQuantity m)
           /\ ((S k < length new)%nat -> quantity t = getQuantity m).
Proof.
  induction 1 as [st _|st st1 st' Hstep Hrun IH].
  - exists []. rewrite app_nil_r. simpl.
    repeat split; try lia. intros [|k] t Hk; discriminate.
  - destruct IH as (new1 & Htr & Htot & Hside & Hnonneg & Hnth).
    apply match_step_next in Hstep
      as (key & resting & queue_tail & others & Hopp & Hq & _ & Ht0 & _ & Htaker & Hcase).
    set (t0 := {| tradeID := next_trade_id st;
                  makerOrderID := getOrderID resting;
                  takerOrderID := getOrderID (taker st);
                  price := getPrice resting;
                  quantity := Z.min (getQuantity (taker st)) (getQuantity resting);
                  aggressorSide := s;
                  symbol := getSymbol resting |}) in *.
    assert (Hq1 : getQuantity (taker st1)
                  = getQuantity (taker st) - quantity t0)
      by (rewrite Htaker; reflexivity).
    (* a reduced resting order at the front means the run is over *)
    assert (Hlast : getQuantity (taker st) < getQuantity resting -> new1 = []).
    { intros Hlt.
      assert (st' = st1) as ->.
      { eapply loop_run_no_quantity; [eassumption|].
        rewrite Hq1. simpl. lia. }
      apply (app_inv_head (trades st1)). now rewrite app_nil_r. }
    exists (t0 :: new1).
    split; [rewrite Htr, Ht0, <- app_assoc; reflexivity|].
    split; [rewrite trade_total_cons; lia|].
    split.
    { rewrite Hside, Hopp, trade_total_cons.
      destruct Hcase as [[Hle ->]|[Hlt ->]].
      - rewrite side_total_cons.
        replace (quantity t0) with (getQuantity resting) by (simpl; lia).
        destruct queue_tail; [rewrite side_total_nil_level|]; lia.
      - rewrite !side_total_cons, getQuantity_setQuantity.
        replace (quantity t0) with (getQuantity (taker st)) by (simpl; lia).
        lia. }
    split; [intros _; apply Hnonneg; rewrite Hq1; simpl; lia|].
    intros [|k] t Hk.
    + injection Hk as <-. exists resting. rewrite Hopp.
      repeat split.
      * simpl. f_equal. lia.
      * simpl length. intros Hlen.
        destruct Hcase as [[Hle _]|[Hlt _]]; [simpl; lia|].
        rewrite (Hlast Hlt) in Hlen. simpl in Hlen. lia.
    + simpl in Hk. destruct (Hnth k t Hk)
        as (m & Hm & Hmaker & Htaker' & Hprice & Hside' & Hqty & Hfull).
      exists m.
      assert (Hpop : getQuantity resting <= getQuantity (taker st)).
      { destruct (Z.le_gt_cases (getQuantity resting) (getQuantity (taker st)))
          as [|Hlt]; [assumption|].
        rewrite (Hlast Hlt) in Hk. destruct k; discriminate. }
      destruct Hcase as [[_ Hopp1]|[Hlt _]]; [|lia].
      split.
      { rewrite Hopp, priority_order_cons. simpl.
        rewrite Hopp1 in Hm. now destruct queue_tail. }
      split; [assumption|].
      split; [rewrite Htaker', Htaker; reflexivity|].
      split; [assumption|]. split; [assumption|].
      split.
      { rewrite Hqty, Hq1. cbn [firstn]. rewrite trade_total_cons. f_equal. lia. }
      simpl length. intros Hlen. apply Hfull. lia.
Qed.

(** ** Invariants of one side *)

Lemma resting_ok_setQuantity s k o q :
  resting_ok s k o -> 0 < q -> resting_ok s k (setQuantity o q).
Proof. intros (? & ? & ? & ?) ?. repeat split; assumption. Qed.

Lemma side_ok_tail s lv m : side_ok s (lv :: m) -> side_ok s m.
Proof.
  intros [Hs Hl]. inversion Hs; inversion Hl; subst. split; assumption.
Qed.

Lemma side_ok_replace_queue s k q q' m :
  side_ok s ((k, q) :: m) -> level_ok s (k, q') -> side_ok s ((k, q') :: m).
Proof.
  intros [Hs Hl] Hq'. inversion Hs; inversion Hl; subst.
  split; constructor; assumption.
Qed.

Lemma side_ok_queues_nonempty s m : side_ok s m -> queues_nonempty m.
Proof.
  intros [_ Hl]. unfold queues_nonempty.
  eapply List.Forall_impl; [|exact Hl]. now intros lv [Hne _].
Qed.

(** The head of a well-formed side holds the best price of that side. *)
Lemma side_ok_head_best s k q m k' q' :
  side_ok s ((k, q) :: m) -> In (k', q') ((k, q) :: m) ->
  k' = k \/ key_before s k k' = true.
Proof.
  intros [Hs _] [Heq|Hin].
  - left. congruence.
  - right. inversion Hs as [|? ? _ Hall]; subst.
    rewrite List.Forall_forall in Hall. exact (Hall _ Hin).
Qed.

(** A run of the body keeps the opposite side well formed and adds no
    price level to it. *)
Lemma match_step_side_ok s s' st st1 :
  match_step s st = LoopNext st1 ->
  side_ok s' (opposite st) ->
  side_ok s' (opposite st1)
  /\ forall k q, In (k, q) (opposite st1) -> exists q0, In (k, q0) (opposite st).
Proof.
  intros Hstep Hok.
  apply match_step_next in Hstep
    as (key & resting & queue_tail & others & Hopp & Hq & _ & _ & _ & _ & Hcase).
  rewrite Hopp in *.
  assert (Hlv : level_ok s' (key, resting :: queue_tail)).
  { destruct Hok as [_ Hl]. now inversion Hl. }
  destruct Hlv as [_ Hall]. simpl in Hall. inversion Hall as [|? ? Hrest Htail]; subst.
  destruct Hcase as [[_ ->]|[Hlt ->]].
  - destruct queue_tail as [|o queue_tail].
    + split; [eapply side_ok_tail; eassumption|].
      intros k q Hin. exists q. now right.
    + split.
      * eapply side_ok_replace_queue; [eassumption|].
        split; [discriminate|assumption].
      * intros k q [Heq|Hin]; [injection Heq as <- <-|]; eexists;
          [left; reflexivity|right; eassumption].
  - split.
    + eapply side_ok_replace_queue; [eassumption|].
      split; [discriminate|]. simpl. constructor; [|assumption].
      apply resting_ok_setQuantity; [assumption|lia].
    + intros k q [Heq|Hin]; [injection Heq as <- <-|]; eexists;
        [left; reflexivity|right; eassumption].
Qed.

Lemma loop_run_side_ok s s' st st' :
  loop_run s st st' ->
  side_ok s' (opposite st) ->
  side_ok s' (opposite st')
  /\ forall k q, In (k, q) (opposite st') -> exists q0, In (k, q0) (opposite st).
Proof.
  induction 1 as [st _|st st1 st' Hstep _ IH]; intros Hok.
  - split; [assumption|]. intros k q Hin. eauto.
  - destruct (match_step_side_ok _ _ _ _ Hstep Hok) as [Hok1 Hkeys1].
    destruct (IH Hok1) as [Hok' Hkeys']. split; [assumption|].
    intros k q Hin. destruct (Hkeys' _ _ Hin) as [q1 Hin1]. eauto.
Qed.

(** [PriceMap_push] on a well-formed side: the keys stay ordered, the
    queue under the key grows at its back, the other queues stay. *)
Lemma PriceMap_push_In s m k o k' q' :
  In (k', q') (PriceMap_push s m k o) ->
  k' = k \/ exists q0, In (k', q0) m.
Proof.
  induction m as [|[k0 q0] m IH]; simpl.
  - intros [Heq|[]]. left. congruence.
  - destruct (key_before s k k0) eqn:Hlt.
    { intros [Heq|Hin]; [left; congruence|right; eauto]. }
    destruct (key_before s k0 k) eqn:Hgt.
    + intros [Heq|Hin].
      * right. injection Heq as <- <-. eexists. left. reflexivity.
      * destruct (IH Hin) as [|[q1 Hq1]]; [now left|right; eauto].
    + intros [Heq|Hin].
      * right. injection Heq as <- _. eexists. left. reflexivity.
      * right. eauto.
Qed.

Lemma key_before_total s a b :
  key_before s a b = false -> key_before s b a = false -> a = b.
Proof. destruct s; simpl; intros; bool_to_Z; lia. Qed.

Lemma key_before_trans s a b c :
  key_before s a b = true -> key_before s b c = true -> key_before s a c = true.
Proof. destruct s; simpl; intros; bool_to_Z; apply Z.ltb_lt; lia. Qed.

Lemma key_before_irrefl s a : key_before s a a = false.
Proof. destruct s; simpl; apply Z.ltb_irrefl. Qed.

Lemma PriceMap_push_ok s m k o :
  side_ok s m -> resting_ok s k o -> side_ok s (PriceMap_push s m k o).
Proof.
  intros Hok Ho. induction m as [|[k0 q0] m IH]; simpl.
  - split; [repeat constructor|].
    constructor; [|constructor]. split; [discriminate|].
    simpl. constructor; [assumption|constructor].
  - destruct (key_before s k k0) eqn:Hlt.
    { destruct Hok as [Hs Hl]. split.
      - constructor; [assumption|]. constructor; [assumption|].
        inversion Hs as [|? ? _ Hall]; subst.
        eapply List.Forall_impl; [|exact Hall]. simpl. intros lv Hlv.
        eapply key_before_trans; eassumption.
      - constructor; [|assumption]. split; [discriminate|].
        simpl. constructor; [assumption|constructor]. }
    destruct (key_before s k0 k) eqn:Hgt.
    + destruct (IH (side_ok_tail _ _ _ Hok)) as [Hs' Hl'].
      destruct Hok as [Hs Hl]. inversion Hs as [|? ? _ Hall]; subst.
      inversion Hl; subst. split.
      * constructor; [assumption|]. apply List.Forall_forall. intros [k' q'] Hin. simpl.
        apply PriceMap_push_In in Hin as [->|[q1 Hq1]]; [assumption|].
        rewrite List.Forall_forall in Hall. exact (Hall _ Hq1).
      * constructor; assumption.
    + assert (k = k0) as -> by (eapply key_before_total; eassumption).
      eapply side_ok_replace_queue; [eassumption|].
      destruct Hok as [_ Hl]. inversion Hl as [|? ? [Hne Hall] _]; subst.
      split; simpl.
      * destruct q0; discriminate.
      * apply List.Forall_app. split; [assumption|]. constructor; [assumption|constructor].
Qed.

Lemma queue_at_absent s (m : PriceMap) k :
  StronglySorted (fun a b => key_before s (fst a) (fst b) = true) m ->
  (forall k' q', In (k', q') m -> key_before s k k' = true) ->
  queue_at m k = [].
Proof.
  intros _ Hall. induction m as [|[k0 q0] m IH]; simpl; [reflexivity|].
  destruct (Z.eqb_spec k0 k) as [->|Hne].
  - specialize (Hall k q0 (or_introl eq_refl)).
    rewrite key_before_irrefl in Hall. discriminate.
  - apply IH. intros k' q' Hin. apply (Hall k' q'). now right.
Qed.

Lemma PriceMap_push_queue_at s m k o :
  side_ok s m ->
  queue_at (PriceMap_push s m k o) k = queue_at m k ++ [o]
  /\ forall k', k' <> k -> queue_at (PriceMap_push s m k o) k' = queue_at m k'.
Proof.
  intros Hok. induction m as [|[k0 q0] m IH]; simpl.
  - rewrite Z.eqb_refl. split; [reflexivity|].
    intros k' Hne. destruct (Z.eqb_spec k k'); [congruence|reflexivity].
  - destruct (key_before s k k0) eqn:Hlt.
    { simpl. rewrite Z.eqb_refl.
      destruct (Z.eqb_spec k0 k) as [->|Hne0];
        [rewrite key_before_irrefl in Hlt; discriminate|].
      split.
      - destruct Hok as [Hs _]. inversion Hs as [|? ? Hs' Hall]; subst.
        rewrite (queue_at_absent s m k Hs'); [reflexivity|].
        intros k' q' Hin. rewrite List.Forall_forall in Hall.
        eapply key_before_trans; [eassumption|]. exact (Hall _ Hin).
      - intros k' Hne. destruct (Z.eqb_spec k k'); [congruence|reflexivity]. }
    destruct (key_before s k0 k) eqn:Hgt.
    + destruct (IH (side_ok_tail _ _ _ Hok)) as [IH1 IH2]. simpl.
      destruct (Z.eqb_spec k0 k) as [->|Hne0];
        [rewrite key_before_irrefl in Hgt; discriminate|].
      split; [assumption|].
      intros k' Hne. destruct (k0 =? k'); [reflexivity|now apply IH2].
    + assert (k = k0) as -> by (eapply key_before_total; eassumption).
      simpl. rewrite Z.eqb_refl. split; [reflexivity|].
      intros k' Hne. destruct (Z.eqb_spec k0 k'); [congruence|reflexivity].
Qed.

(** ** [processOrder] as one run of the loop *)

(** The two branches of [processOrder] read alike through [own_side] and
    [opp_side]: either a FOK order is turned away, or the loop runs on the
    opposite side and a Limit residual is pushed on the own side. *)
Lemma processOrder_cases b o tid ts o' b' tid' :
  processOrder b o tid = Some (ts, o', b', tid') ->
  (getType o = FOK /\ canFOKfill b o = false
   /\ ts = [] /\ o' = o /\ b' = b /\ tid' = tid)
  \/ exists st',
       (getType o = FOK -> canFOKfill b o = true)
       /\ match_loop (getSide o) (S (order_count (opp_side (getSide o) b)))
            (start_state b o tid) = Some st'
       /\ ts = trades st' /\ o' = taker st' /\ tid' = next_trade_id st'
       /\ opp_side (getSide o) b' = opposite st'
       /\ own_side (getSide o) b'
          = if (0 <? getQuantity o') && OrderType_eqb (getType o') Limit
            then PriceMap_push (getSide o) (own_side (getSide o) b) (getPrice o') o'
            else own_side (getSide o) b.
Proof.
  unfold processOrder. intros H.
  destruct (OrderType_eqb (getType o) FOK && negb (canFOKfill b o)) eqn:Hfok.
  { left. injection H as <- <- <- <-. bool_to_Z.
    repeat split; try assumption. now apply OrderType_eqb_eq. }
  right.
  assert (Hcan : getType o = FOK -> canFOKfill b o = true).
  { intros Ht. rewrite Ht in Hfok. simpl in Hfok. now bool_to_Z. }
  unfold matchBuyOrder, matchSellOrder, start_state in *.
  destruct (getSide o) eqn:Hside; simpl opp_side; simpl own_side;
    match type of H with
    | context [match_loop ?s ?f ?st] =>
        destruct (match_loop s f st) as [st'|] eqn:Hloop; [|discriminate]
    end;
    injection H as <- <- <- <-; exists st';
    pose proof (loop_run_taker _ _ _ (match_loop_run _ _ _ _ Hloop)) as Htk;
    simpl in Htk;
    (assert (Hs' : getSide (taker st') = getSide o)
      by (rewrite Htk; reflexivity));
    rewrite Hside in Hs';
    (split; [assumption|]); (split; [reflexivity|]);
    repeat (split; [reflexivity|]);
    destruct ((0 <? getQuantity (taker st'))
              && OrderType_eqb (getType (taker st')) Limit);
    unfold addLimitOrder; rewrite ?Hs'; split; reflexivity.
Qed.

(** On a book without empty queues the call returns. *)
Lemma processOrder_total b o tid :
  queues_nonempty (asks_ b) -> queues_nonempty (bids_ b) ->
  exists ts o' b' tid', processOrder b o tid = Some (ts, o', b', tid').
Proof.
  intros Ha Hb. unfold processOrder.
  destruct (OrderType_eqb (getType o) FOK && negb (canFOKfill b o)); [eauto|].
  unfold matchBuyOrder, matchSellOrder.
  destruct (getSide o);
    match goal with
    | |- context [match_loop ?s (S (order_count ?m)) ?st] =>
        destruct (match_loop_enough_fuel s (S (order_count m)) st) as [st' ->];
          [assumption
          |simpl; destruct (0 <? getQuantity o); lia
          |eauto]
    end.
Qed.

(** ** The invariants hold in every reachable book *)

Lemma book_ok_empty : book_ok empty_book.
Proof.
  split; [|split].
  - split; constructor.
  - split; constructor.
  - intros ? ? ? ? [].
Qed.

Lemma book_ok_sides s b :
  book_ok b ->
  side_ok s (own_side s b) /\ side_ok (other_side s) (opp_side s b).
Proof. intros (Ha & Hb & _). destruct s; split; assumption. Qed.

Lemma crossed_free_apart s b :
  crossed_free b <-> apart s (own_side s b) (opp_side s b).
Proof.
  unfold crossed_free, apart. destruct s; simpl; split; intros H.
  - intros ko qo kp qp Ho Hp. apply Z.ltb_lt. eauto.
  - intros pb qb pa qa Hb Ha. apply Z.ltb_lt. eauto.
  - intros ko qo kp qp Ho Hp. apply Z.ltb_lt. eauto.
  - intros pb qb pa qa Hb Ha. apply Z.ltb_lt. eauto.
Qed.

Lemma book_ok_intro s b :
  side_ok s (own_side s b) -> side_ok (other_side s) (opp_side s b) ->
  apart s (own_side s b) (opp_side s b) ->
  book_ok b.
Proof.
  intros Hown Hopp Hap. apply crossed_free_apart in Hap.
  destruct s; repeat split; assumption || apply Hown || apply Hopp.
Qed.

Lemma key_before_other s a b : key_before (other_side s) a b = key_before s b a.
Proof. now destruct s. Qed.

Lemma processOrder_book_ok b o tid ts o' b' tid' :
  book_ok b ->
  processOrder b o tid = Some (ts, o', b', tid') ->
  book_ok b'.
Proof.
  intros Hok H.
  apply processOrder_cases in H
    as [(_ & _ & _ & _ & -> & _)
       |(st' & _ & Hloop & _ & -> & _ & Hopp' & Hown')]; [assumption|].
  set (s := getSide o) in *.
  apply match_loop_run in Hloop.
  destruct (book_ok_sides s b Hok) as [Hown Hopp].
  destruct (loop_run_side_ok _ (other_side s) _ _ Hloop Hopp) as [Hopp_ok Hkeys].
  simpl in Hkeys.
  assert (Hap : apart s (own_side s b) (opp_side s b))
    by (apply crossed_free_apart, Hok).
  pose proof (loop_run_taker _ _ _ Hloop) as Htk. simpl in Htk.
  apply (book_ok_intro s); rewrite ?Hopp', ?Hown'.
  - destruct ((0 <? getQuantity (taker st'))
              && OrderType_eqb (getType (taker st')) Limit) eqn:Hrest;
      [|assumption].
    bool_to_Z. apply PriceMap_push_ok; [assumption|].
    repeat split; try assumption.
    + now apply OrderType_eqb_eq.
    + rewrite Htk. reflexivity.
  - assumption.
  - destruct ((0 <? getQuantity (taker st'))
              && OrderType_eqb (getType (taker st')) Limit) eqn:Hrest.
    + bool_to_Z. intros ko qo kp qp Ho Hp.
      apply PriceMap_push_In in Ho as [->|[q0 Hq0]].
      * (* the new level: the loop left on the price test *)
        apply loop_run_exit, match_step_exit in Hloop
          as [Hq|[Hnil|(key & resting & qt & others & Hst & _ & Hworse)]];
          [lia|rewrite Hnil in Hp; destruct Hp|].
        rewrite Hst in Hopp_ok, Hp.
        assert (Hprice : getPrice resting = key).
        { destruct Hopp_ok as [_ Hl]. inversion Hl as [|? ? [_ Hall] _]; subst.
          simpl in Hall. inversion Hall as [|? ? Hr _]; subst. apply Hr. }
        rewrite price_worse_key_before, Hprice in Hworse.
        destruct (side_ok_head_best _ _ _ _ _ _ Hopp_ok Hp) as [->|Hbefore];
          [assumption|].
        rewrite key_before_other in Hbefore.
        eapply key_before_trans; eassumption.
      * destruct (Hkeys _ _ Hp) as [qp0 Hqp0]. eapply Hap; eassumption.
    + intros ko qo kp qp Ho Hp.
      destruct (Hkeys _ _ Hp) as [qp0 Hqp0]. eapply Hap; eassumption.
Qed.

Lemma reachable_book_ok b : reachable b -> book_ok b.
Proof.
  induction 1 as [|b o tid ts o' b' tid' _ IH Hp].
  - apply book_ok_empty.
  - eapply processOrder_book_ok; eassumption.
Qed.

Lemma reachable_total b o tid :
  reachable b ->
  exists ts o' b' tid', processOrder b o tid = Some (ts, o', b', tid').
Proof.
  intros Hr. apply reachable_book_ok in Hr as (Ha & Hb & _).
  apply processOrder_total; eapply side_ok_queues_nonempty; eassumption.
Qed.

(** ** Scenario books are reachable *)

Lemma reachable_book_3_3 : reachable book_3_3.
Proof.
  apply (reachable_process
           {| asks_ := [(100, [ord 1 Limit Sell 3 100])]; bids_ := [] |}
           (ord 2 Limit Sell 3 101) 1 [] (ord 2 Limit Sell 3 101) book_3_3 1);
    [|reflexivity].
  apply (reachable_process empty_book
           (ord 1 Limit Sell 3 100) 1 [] (ord 1 Limit Sell 3 100) _ 1);
    [|reflexivity].
  apply reachable_empty.
Qed.

(** ** Orders without quantity *)

Lemma processOrder_no_quantity b o tid :
  getQuantity o <= 0 ->
  processOrder b o tid = Some ([], o, b, tid).
Proof.
  intros Hq. unfold processOrder.
  destruct (OrderType_eqb (getType o) FOK && negb (canFOKfill b o)); [reflexivity|].
  unfold matchBuyOrder, matchSellOrder.
  destruct (getSide o); cbn [match_loop];
    rewrite match_step_no_quantity by (simpl; lia); cbn [taker opposite trades next_trade_id];
    destruct (Z.ltb_spec 0 (getQuantity o)); try lia; simpl; now destruct b.
Qed.

(** C10.  For every order whose quantity is zero or negative,
    [processOrder] returns no trade and the book it was given: the loop
    condition fails at once and the residual test [getQuantity() > 0]
    keeps the order out of the book. *)
Theorem nonpositive_quantity_is_noop b o tid :
  getQuantity o <= 0 ->
  processOrder b o tid = Some ([], o, b, tid).
Proof. exact (processOrder_no_quantity b o tid). Qed.

Lemma nonpositive_quantity_is_noop_witness :
  getQuantity (ord 9 Limit Buy (-2) 101) <= 0
  /\ processOrder book_3_3 (ord 9 Limit Buy (-2) 101) 7
     = Some ([], ord 9 Limit Buy (-2) 101, book_3_3, 7).
Proof.
  split; [simpl; lia|].
  apply (nonpositive_quantity_is_noop book_3_3 (ord 9 Limit Buy (-2) 101) 7).
  simpl; lia.
Defined.

(** ** The taker's own side *)

(** What a call does to the side the taker would rest on. *)
Lemma processOrder_own_side b o tid :
  reachable b ->
  exists ts o' b' tid',
    processOrder b o tid = Some (ts, o', b', tid')
    /\ (getType o <> Limit \/ getQuantity o' <= 0 ->
        own_side (getSide o) b' = own_side (getSide o) b)
    /\ (getType o = Limit -> 0 < getQuantity o' ->
        own_side (getSide o) b'
        = PriceMap_push (getSide o) (own_side (getSide o) b) (getPrice o) o'
        /\ queue_at (own_side (getSide o) b') (getPrice o)
           = queue_at (own_side (getSide o) b) (getPrice o) ++ [o']
        /\ forall k, k <> getPrice o ->
             queue_at (own_side (getSide o) b') k
             = queue_at (own_side (getSide o) b) k).
Proof.
  intros Hr.
  destruct (reachable_total b o tid Hr) as (ts & o' & b' & tid' & Hp).
  exists ts, o', b', tid'. split; [assumption|].
  pose proof (reachable_book_ok _ Hr) as Hok.
  destruct (book_ok_sides (getSide o) b Hok) as [Hown _].
  apply processOrder_cases in Hp
    as [(Hfok & _ & _ & -> & -> & _)
       |(st' & _ & Hloop & _ & -> & _ & _ & Hown')].
  { split; [reflexivity|]. intros Hl. rewrite Hl in Hfok. discriminate. }
  pose proof (loop_run_taker _ _ _ (match_loop_run _ _ _ _ Hloop)) as Htk.
  simpl in Htk.
  assert (Hty : getType (taker st') = getType o) by (rewrite Htk; reflexivity).
  assert (Hpr : getPrice (taker st') = getPrice o) by (rewrite Htk; reflexivity).
  rewrite Hown', Hty, Hpr. split.
  - intros [Hnl|Hq].
    + destruct (getType o); try congruence; now rewrite andb_false_r.
    + destruct (Z.ltb_spec 0 (getQuantity (taker st'))); [lia|reflexivity].
  - intros Hl Hq. rewrite Hl.
    destruct (Z.ltb_spec 0 (getQuantity (taker st'))); [|lia]. simpl.
    split; [reflexivity|]. now apply PriceMap_push_queue_at.
Qed.

(** C9.  On every reachable book [processOrder] returns, and it leaves
    the taker's own side (the bids for a buy, the asks for a sell) as it
    was whenever the taker is a Market, IOC or FOK order or nothing of it
    is left; a Limit taker with a positive residual changes its own side
    by one [push_back] of that residual under its price: the queue there
    grows by the residual at its back and every other queue stays. *)
Theorem taker_side_frame b o tid :
  reachable b ->
  exists ts o' b' tid',
    processOrder b o tid = Some (ts, o', b', tid')
    /\ (getType o <> Limit \/ getQuantity o' <= 0 ->
        own_side (getSide o) b' = own_side (getSide o) b)
    /\ (getType o = Limit -> 0 < getQuantity o' ->
        own_side (getSide o) b'
        = PriceMap_push (getSide o) (own_side (getSide o) b) (getPrice o) o'
        /\ queue_at (own_side (getSide o) b') (getPrice o)
           = queue_at (own_side (getSide o) b) (getPrice o) ++ [o']
        /\ forall k, k <> getPrice o ->
             queue_at (own_side (getSide o) b') k
             = queue_at (own_side (getSide o) b) k).
Proof. exact (processOrder_own_side b o tid). Qed.

Lemma taker_side_frame_witness :
  reachable book_3_3
  /\ exists ts o' b' tid',
       processOrder book_3_3 (ord 3 Limit Sell 4 101) 1 = Some (ts, o', b', tid')
       /\ (Limit <> Limit \/ getQuantity o' <= 0 ->
           asks_ b' = asks_ book_3_3)
       /\ (Limit = Limit -> 0 < getQuantity o' ->
           asks_ b' = PriceMap_push Sell (asks_ book_3_3) 101 o'
           /\ queue_at (asks_ b') 101 = queue_at (asks_ book_3_3) 101 ++ [o']
           /\ forall k, k <> 101 ->
                queue_at (asks_ b') k = queue_at (asks_ book_3_3) k).
Proof.
  split; [exact reachable_book_3_3|].
  exact (taker_side_frame book_3_3 (ord 3 Limit Sell 4 101) 1 reachable_book_3_3).
Defined.

(** ** No crossed book *)

(** C4.  On every reachable book -- the empty book after any sequence of
    [processOrder] calls -- a further call returns, and in the book it
    leaves every bid price is strictly below every ask price; so the
    best bid is below the best ask whenever both sides are non-empty. *)
Theorem no_crossed_book b o tid :
  reachable b ->
  exists ts o' b' tid',
    processOrder b o tid = Some (ts, o', b', tid')
    /\ (forall pb qb pa qa,
          In (pb, qb) (bids_ b') -> In (pa, qa) (asks_ b') -> pb < pa)
    /\ (forall bbo, getBBO b' = Some bbo -> bestBid bbo < bestAsk bbo).
Proof.
  intros Hr.
  destruct (reachable_total b o tid Hr) as (ts & o' & b' & tid' & Hp).
  exists ts, o', b', tid'. split; [assumption|].
  assert (Hok : book_ok b')
    by (eapply processOrder_book_ok; [apply reachable_book_ok|]; eassumption).
  destruct Hok as (_ & _ & Hfree). split; [exact Hfree|].
  intros bbo Hbbo. unfold getBBO in Hbbo.
  destruct (bids_ b') as [|[pb qb] bs] eqn:Hb; [discriminate|].
  destruct (asks_ b') as [|[pa qa] az] eqn:Ha; [discriminate|].
  injection Hbbo as <-. simpl.
  apply (Hfree pb qb pa qa); rewrite ?Hb, ?Ha; now left.
Qed.

Lemma no_crossed_book_witness :
  reachable book_3_3
  /\ exists ts o' b' tid',
       processOrder book_3_3 (ord 3 Limit Buy 5 100) 1 = Some (ts, o', b', tid')
       /\ (forall pb qb pa qa,
             In (pb, qb) (bids_ b') -> In (pa, qa) (asks_ b') -> pb < pa)
       /\ (forall bbo, getBBO b' = Some bbo -> bestBid bbo < bestAsk bbo).
Proof.
  split; [exact reachable_book_3_3|].
  exact (no_crossed_book book_3_3 (ord 3 Limit Buy 5 100) 1 reachable_book_3_3).
Defined.

(** ** Resting orders *)

Lemma In_priority_order (m : PriceMap) r :
  In r (priority_order m) <-> exists k q, In (k, q) m /\ In r q.
Proof.
  unfold priority_order. rewrite in_concat. split.
  - intros (q & Hq & Hr). apply in_map_iff in Hq as ([k q'] & <- & Hin). eauto.
  - intros (k & q & Hin & Hr). exists q. split; [|assumption].
    apply in_map_iff. exists (k, q). split; [reflexivity|assumption].
Qed.

Lemma side_ok_resting s m r :
  side_ok s m -> In r (priority_order m) ->
  exists k q, In (k, q) m /\ resting_ok s k r.
Proof.
  intros [_ Hl] Hr. apply In_priority_order in Hr as (k & q & Hin & Hr).
  exists k, q. split; [assumption|].
  rewrite List.Forall_forall in Hl. destruct (Hl _ Hin) as [_ Hall].
  rewrite List.Forall_forall in Hall. exact (Hall _ Hr).
Qed.

(** Every order resting in a well-formed book is a Limit order. *)
Lemma book_ok_only_limit b r :
  book_ok b ->
  In r (priority_order (asks_ b) ++ priority_order (bids_ b)) ->
  getType r = Limit.
Proof.
  intros (Ha & Hb & _) Hin. apply in_app_or in Hin as [Hin|Hin];
    eapply side_ok_resting in Hin as (k & q & _ & _ & _ & Ht & _); eauto.
Qed.

(** C8.  On every reachable book [processOrder] returns and disposes of
    the residual by order type.  A Limit order with a positive residual
    goes to the back of the queue under its price on its own side (a
    queue that was absent now holds just this order), and no other queue
    of that side changes.  A Market, IOC or FOK order leaves its own side
    as it was, and every order resting in the resulting book is a Limit
    order. *)
Theorem residual_disposal b o tid :
  reachable b ->
  exists ts o' b' tid',
    processOrder b o tid = Some (ts, o', b', tid')
    /\ (getType o = Limit -> 0 < getQuantity o' ->
        queue_at (own_side (getSide o) b') (getPrice o)
        = queue_at (own_side (getSide o) b) (getPrice o) ++ [o']
        /\ forall k, k <> getPrice o ->
             queue_at (own_side (getSide o) b') k
             = queue_at (own_side (getSide o) b) k)
    /\ (getType o <> Limit ->
        own_side (getSide o) b' = own_side (getSide o) b)
    /\ (forall r,
          In r (priority_order (asks_ b') ++ priority_order (bids_ b')) ->
          getType r = Limit).
Proof.
  intros Hr.
  destruct (processOrder_own_side b o tid Hr)
    as (ts & o' & b' & tid' & Hp & Hsame & Hpush).
  exists ts, o', b', tid'. split; [assumption|].
  split; [intros Hl Hq; now destruct (Hpush Hl Hq) as (_ & ? & ?)|].
  split; [intros Hnl; apply Hsame; now left|].
  intros r Hin. eapply book_ok_only_limit; [|eassumption].
  eapply processOrder_book_ok; [apply reachable_book_ok|]; eassumption.
Qed.

Lemma residual_disposal_witness :
  reachable book_3_3
  /\ exists ts o' b' tid',
       processOrder book_3_3 (ord 3 Limit Sell 4 101) 1 = Some (ts, o', b', tid')
       /\ (Limit = Limit -> 0 < getQuantity o' ->
           queue_at (asks_ b') 101 = queue_at (asks_ book_3_3) 101 ++ [o']
           /\ forall k, k <> 101 ->
                queue_at (asks_ b') k = queue_at (asks_ book_3_3) k)
       /\ (Limit <> Limit -> asks_ b' = asks_ book_3_3)
       /\ (forall r,
             In r (priority_order (asks_ b') ++ priority_order (bids_ b')) ->
             getType r = Limit).
Proof.
  split; [exact reachable_book_3_3|].
  exact (residual_disposal book_3_3 (ord 3 Limit Sell 4 101) 1 reachable_book_3_3).
Defined.

(** ** The trades of a call *)


(** ** Price-time priority *)





(** Scenario S2: two asks at one price, swept in their order of arrival. *)
Example scenario_S2 :
  processOrder
    {| asks_ := [(100, [ord 1 Limit Sell 5 100; ord 2 Limit Sell 5 100])];
       bids_ := [] |}
    (ord 3 Limit Buy 7 100) 1
  = Some ([mkTrade 1 1 3 100 5 Buy "BTC-USDT"; mkTrade 2 2 3 100 2 Buy "BTC-USDT"],
          ord 3 Limit Buy 0 100,
          {| asks_ := [(100, [ord 2 Limit Sell 3 100])]; bids_ := [] |}, 3).
Proof. reflexivity. Qed.

(** ** Fill-or-kill *)

Lemma level_quantity_sum acc q :
  level_quantity acc q = acc + fold_right (fun o a => getQuantity o + a) 0 q.
Proof.
  unfold level_quantity. revert acc.
  induction q as [|o q IH]; intros acc; simpl; [lia|]. rewrite IH. lia.
Qed.

Lemma side_total_level k q m :
  side_total ((k, q) :: m)
  = fold_right (fun o a => getQuantity o + a) 0 q + side_total m.
Proof.
  induction q as [|o q IH].
  - rewrite side_total_nil_level. simpl. lia.
  - rewrite side_total_cons, IH. simpl. lia.
Qed.

Lemma level_total_nonneg s k q :
  Forall (resting_ok s k) q ->
  0 <= fold_right (fun o a => getQuantity o + a) 0 q.
Proof.
  induction 1 as [|o q (_ & Hq & _) _ IH]; simpl; lia.
Qed.

Lemma side_total_nonneg s m : side_ok s m -> 0 <= side_total m.
Proof.
  induction m as [|[k q] m IH]; intros Hok; [reflexivity|].
  rewrite side_total_level.
  pose proof (IH (side_ok_tail _ _ _ Hok)).
  destruct Hok as [_ Hl]. inversion Hl as [|? ? [_ Hall] _]; subst.
  cbn in Hall. pose proof (level_total_nonneg _ _ _ Hall). lia.
Qed.

(** For a taker that is not a Limit order the price test of
    [canFOKfill] never fires: a positive answer only says that the whole
    opposite side holds enough. *)
Lemma canFOKfill_scan_enough s o levels acc :
  getType o <> Limit ->
  side_ok s levels ->
  canFOKfill_scan o levels acc = true ->
  getQuantity o <= acc + side_total levels.
Proof.
  intros Hnl. revert acc.
  induction levels as [|[k q] m IH]; intros acc Hok Hscan; simpl in Hscan.
  - bool_to_Z. change (side_total []) with 0. lia.
  - assert (OrderType_eqb (getType o) Limit = false) as Hty
      by (destruct (getType o); congruence || reflexivity).
    rewrite Hty in Hscan. simpl in Hscan.
    rewrite level_quantity_sum in Hscan. rewrite side_total_level.
    pose proof (side_total_nonneg _ _ (side_ok_tail _ _ _ Hok)).
    destruct (Z.leb_spec (getQuantity o)
                (acc + fold_right (fun o a => getQuantity o + a) 0 q)); [lia|].
    specialize (IH _ (side_ok_tail _ _ _ Hok) Hscan). lia.
Qed.

(** ** The price test of the loop *)

Lemma reachable_book_ask_100 : reachable book_ask_100.
Proof.
  apply (reachable_process empty_book
           (ord 1 Limit Sell 5 100) 1 [] (ord 1 Limit Sell 5 100) _ 1);
    [apply reachable_empty|reflexivity].
Qed.

(** A Limit taker never trades at a price worse than its limit. *)
Lemma loop_run_limit_prices s st st' :
  loop_run s st st' ->
  getType (taker st) = Limit ->
  exists new,
    trades st' = trades st ++ new
    /\ forall t, In t new -> price_worse s (getPrice (taker st)) (price t) = false.
Proof.
  induction 1 as [st _|st st1 st' Hstep _ IH]; intros Hl.
  - exists []. split; [now rewrite app_nil_r|]. intros t [].
  - apply match_step_next in Hstep
      as (key & resting & queue_tail & others & _ & _ & Hgate & Ht0 & _ & Htaker & _).
    destruct IH as (new1 & Htr & Hall); [rewrite Htaker; exact Hl|].
    eexists (_ :: new1). split; [rewrite Htr, Ht0, <- app_assoc; reflexivity|].
    intros t [<-|Hin]; [exact (Hgate Hl)|].
    specialize (Hall t Hin). rewrite Htaker in Hall. exact Hall.
Qed.

Lemma limit_taker_trades_within_limit b o tid ts o' b' tid' :
  processOrder b o tid = Some (ts, o', b', tid') ->
  getType o = Limit ->
  forall t, In t ts -> price_worse (getSide o) (getPrice o) (price t) = false.
Proof.
  intros Hp Hl.
  apply processOrder_cases in Hp
    as [(_ & _ & -> & _)|(st' & _ & Hloop & -> & _)]; [intros t []|].
  apply match_loop_run in Hloop.
  destruct (loop_run_limit_prices _ _ _ Hloop Hl) as (new & Htr & Hall).
  simpl in Htr, Hall. now subst new.
Qed.

(** C1 at a failing input.  An ask of 5 at 100; an IOC buy of 5 limited
    to 50.  The best ask is worse than the taker's limit, so the loop
    should stop; but the price test of the loop sits behind
    [getType() == Limit], which an IOC order does not pass, and the order
    trades all the same, at 100. *)
Lemma ioc_trades_beyond_its_limit :
  reachable book_ask_100
  /\ price_worse Buy (getPrice (ord 2 IOC Buy 5 50)) 100 = true
  /\ processOrder book_ask_100 (ord 2 IOC Buy 5 50) 1
     = Some ([mkTrade 1 1 2 100 5 Buy "BTC-USDT"], ord 2 IOC Buy 0 50,
             empty_book, 2).
Proof.
  split; [exact reachable_book_ask_100|]. repeat split.
Qed.

(** What the price test of the loop does as written.  With the front
    order of the best opposite level priced as its level: a Limit taker
    for which that price is worse than its limit (higher for a buy, lower
    for a sell) does not trade, the loop ends in the state it is in; an
    IOC taker with quantity left trades with that front order at its
    price, for the smaller of the two quantities, whatever the two prices
    are. *)
Lemma limit_price_gate s fuel st key resting queue_tail others :
  opposite st = (key, resting :: queue_tail) :: others ->
  getPrice resting = key ->
  (getType (taker st) = Limit ->
   price_worse s (getPrice (taker st)) key = true ->
   match_loop s (S fuel) st = Some st)
  /\ (getType (taker st) = IOC ->
      0 < getQuantity (taker st) ->
      exists st1 t,
        match_step s st = LoopNext st1
        /\ trades st1 = trades st ++ [t]
        /\ makerOrderID t = getOrderID resting
        /\ price t = key
        /\ quantity t = Z.min (getQuantity (taker st)) (getQuantity resting)).
Proof.
  intros Hopp Hprice. split.
  - intros Hl Hworse. simpl. unfold match_step.
    rewrite Hopp, Hl, Hprice, Hworse. simpl.
    now destruct (negb (0 <? getQuantity (taker st))).
  - intros Hioc Hq. unfold match_step.
    rewrite Hopp, Hioc. simpl.
    destruct (Z.ltb_spec 0 (getQuantity (taker st))); [|lia]. simpl.
    eexists _, _. split; [reflexivity|]. simpl.
    repeat split. assumption.
Qed.

Lemma limit_price_gate_witness :
  match_loop Buy 2
    {| taker := ord 2 Limit Buy 5 50; opposite := asks_ book_ask_100;
       trades := []; next_trade_id := 1 |}
  = Some {| taker := ord 2 Limit Buy 5 50; opposite := asks_ book_ask_100;
            trades := []; next_trade_id := 1 |}
  /\ exists st1 t,
       match_step Sell
         {| taker := ord 3 IOC Sell 2 70; opposite := [(60, [ord 1 Limit Buy 5 60])];
            trades := []; next_trade_id := 1 |} = LoopNext st1
       /\ trades st1 = [] ++ [t]
       /\ makerOrderID t = 1
       /\ price t = 60
       /\ quantity t = Z.min 2 5.
Proof.
  split.
  - exact (proj1 (limit_price_gate Buy 1
                    {| taker := ord 2 Limit Buy 5 50; opposite := asks_ book_ask_100;
                       trades := []; next_trade_id := 1 |}
                    100 (ord 1 Limit Sell 5 100) [] [] eq_refl eq_refl)
                 eq_refl eq_refl).
  - exact (proj2 (limit_price_gate Sell 0
                    {| taker := ord 3 IOC Sell 2 70;
                       opposite := [(60, [ord 1 Limit Buy 5 60])];
                       trades := []; next_trade_id := 1 |}
                    60 (ord 1 Limit Buy 5 60) [] [] eq_refl eq_refl)
                 eq_refl ltac:(simpl; lia)).
Defined.

(** ** The pre-check of a FOK order *)

Lemma reachable_book_3_far : reachable book_3_far.
Proof.
  apply (reachable_process
           {| asks_ := [(100, [ord 1 Limit Sell 3 100])]; bids_ := [] |}
           (ord 2 Limit Sell 3 200) 1 [] (ord 2 Limit Sell 3 200) book_3_far 1);
    [|reflexivity].
  apply (reachable_process empty_book
           (ord 1 Limit Sell 3 100) 1 [] (ord 1 Limit Sell 3 100) _ 1);
    [|reflexivity].
  apply reachable_empty.
Qed.

(** C2 at a failing input.  Asks of 3 at 100 and 3 at 200; a FOK buy of
    6 limited to 100.  Only 3 rest at or below the limit, fewer than the
    6 asked for, yet [canFOKfill] answers yes -- its price test sits
    behind [getType() == Limit], which a FOK order never passes -- and
    the order is filled, half of it at 200. *)
Theorem fok_precheck_counts_ineligible_levels :
  reachable book_3_far
  /\ eligible_quantity (ord 3 FOK Buy 6 100) (asks_ book_3_far) = 3
  /\ canFOKfill book_3_far (ord 3 FOK Buy 6 100) = true
  /\ processOrder book_3_far (ord 3 FOK Buy 6 100) 1
     = Some ([mkTrade 1 1 3 100 3 Buy "BTC-USDT"; mkTrade 2 2 3 200 3 Buy "BTC-USDT"],
             ord 3 FOK Buy 0 100, empty_book, 3).
Proof.
  split; [exact reachable_book_3_far|]. repeat split.
Qed.

(** ** Depth events of the engine *)

Section EngineProperties.

Variable to_string : Z -> string.
Variable dump : json -> string.

Lemma book_of_insert e sym b :
  book_of {| order_books_ := <[sym := b]> (order_books_ e) |} sym = b.
Proof. unfold book_of. simpl. now rewrite lookup_insert_eq. Qed.

Lemma filter_trade_events ts :
  List.filter is_market_data (broadcast_trades ts) = [].
Proof. induction ts as [|t ts IH]; [reflexivity|exact IH]. Qed.

End EngineProperties.

(** ** Further scenarios of the specification *)

(** S5: an IOC order fills what it can and the rest is dropped. *)
Example scenario_S5 :
  processOrder {| asks_ := [(100, [ord 1 Limit Sell 2 100])]; bids_ := [] |}
               (ord 2 IOC Buy 5 100) 1
  = Some ([mkTrade 1 1 2 100 2 Buy "BTC-USDT"], ord 2 IOC Buy 3 100, empty_book, 2).
Proof. reflexivity. Qed.

(** S6: a first bid at 50 is announced, and so is a second one that only
    changes the aggregated quantity of the level. *)
Example scenario_S6 :
  match process to_string_integral dump_compact
          {| order_books_ := ∅ |} (ord 1 Limit Buy 1 50) 1 with
  | Some (evs1, _, e1, _) =>
      match process to_string_integral dump_compact e1 (ord 2 Limit Buy 1 50) 1 with
      | Some (evs2, _, _, _) => Some (evs1, evs2)
      | None => None
      end
  | None => None
  end
  = Some ([MarketDataEvent "BTC-USDT" None
             (JArray [JArray [JString "50.000000"; JString "1.000000"]]) (JArray [])],
          [MarketDataEvent "BTC-USDT" None
             (JArray [JArray [JString "50.000000"; JString "2.000000"]]) (JArray [])]).
Proof. vm_compute. reflexivity. Qed.

(** * Further properties of the code *)

(** ** Trades are positive and bounded *)

Lemma loop_run_positive s s' st st' :
  loop_run s st st' ->
  side_ok s' (opposite st) ->
  exists new,
    trades st' = trades st ++ new
    /\ forall t, In t new -> 0 < quantity t.
Proof.
  induction 1 as [st _|st st1 st' Hstep _ IH]; intros Hok.
  - exists []. rewrite app_nil_r. split; [reflexivity|]. intros t [].
  - destruct (match_step_side_ok _ _ _ _ Hstep Hok) as [Hok1 _].
    destruct (IH Hok1) as (new1 & Htr & Hpos).
    apply match_step_next in Hstep
      as (key & resting & queue_tail & others & Hopp & Hq & _ & Ht0 & _).
    eexists (_ :: new1).
    split; [rewrite Htr, Ht0, <- app_assoc; reflexivity|].
    intros t [<-|Hin]; [|now apply Hpos]. simpl.
    rewrite Hopp in Hok. destruct Hok as [_ Hl].
    inversion Hl as [|? ? [_ Hall] _]; subst. cbn in Hall.
    inversion Hall as [|? ? (_ & Hr & _) _]; subst. lia.
Qed.

(** X3.  On a reachable book every trade of [processOrder] has a
    positive quantity, and an order that came with a positive quantity
    leaves with a quantity between zero and what it came with. *)
Theorem trade_quantities_positive b o tid :
  reachable b ->
  exists ts o' b' tid',
    processOrder b o tid = Some (ts, o', b', tid')
    /\ (forall t, In t ts -> 0 < quantity t)
    /\ (0 < getQuantity o -> 0 <= getQuantity o' <= getQuantity o).
Proof.
  intros Hr.
  destruct (reachable_total b o tid Hr) as (ts & o' & b' & tid' & Hp).
  exists ts, o', b', tid'. split; [assumption|].
  destruct (book_ok_sides (getSide o) b (reachable_book_ok _ Hr)) as [_ Hopp].
  apply processOrder_cases in Hp
    as [(_ & _ & -> & -> & _)|(st' & _ & Hloop & -> & -> & _)].
  { split; [intros t []|lia]. }
  apply match_loop_run in Hloop.
  destruct (loop_run_positive _ _ _ _ Hloop Hopp) as (new & Htr & Hpos).
  destruct (loop_run_trades _ _ _ Hloop) as (new2 & Htr2 & Htot & _ & Hnn & _).
  simpl in Htr, Htr2, Htot, Hnn. subst new new2.
  split; [assumption|]. intros Hq. split; [apply Hnn; lia|].
  assert (0 <= trade_total (trades st')); [|lia].
  clear - Hpos. induction (trades st') as [|t l IH]; [reflexivity|].
  rewrite trade_total_cons.
  pose proof (Hpos t (or_introl eq_refl)).
  specialize (IH (fun t' Hin => Hpos t' (or_intror Hin))). lia.
Qed.

Lemma trade_quantities_positive_witness :
  reachable book_3_3
  /\ exists ts o' b' tid',
       processOrder book_3_3 (ord 3 IOC Buy 5 100) 1 = Some (ts, o', b', tid')
       /\ (forall t, In t ts -> 0 < quantity t)
       /\ (0 < 5 -> 0 <= getQuantity o' <= 5).
Proof.
  split; [exact reachable_book_3_3|].
  exact (trade_quantities_positive book_3_3 (ord 3 IOC Buy 5 100) 1 reachable_book_3_3).
Defined.

(** ** Orders that ignore price *)

(** X4.  A Market, IOC or FOK order that [processOrder] lets through to
    the loop trades until it is filled or the opposite side is empty: on
    a reachable book the call returns, and unless it is a rejected FOK
    order, either nothing of the order is left or the opposite side of
    the resulting book has no level. *)
Theorem unpriced_taker_sweeps b o tid :
  reachable b ->
  getType o <> Limit ->
  exists ts o' b' tid',
    processOrder b o tid = Some (ts, o', b', tid')
    /\ ((getType o = FOK /\ canFOKfill b o = false)
        \/ getQuantity o' <= 0
        \/ opp_side (getSide o) b' = []).
Proof.
  intros Hr Hnl.
  destruct (reachable_total b o tid Hr) as (ts & o' & b' & tid' & Hp).
  exists ts, o', b', tid'. split; [assumption|].
  apply processOrder_cases in Hp
    as [(Hf & Hc & _)|(st' & _ & Hloop & _ & -> & _ & Hopp' & _)];
    [left; split; assumption|right].
  apply match_loop_run in Hloop.
  pose proof (loop_run_taker _ _ _ Hloop) as Htk. simpl in Htk.
  apply loop_run_exit, match_step_exit in Hloop
    as [Hz|[Hnil|(_ & _ & _ & _ & _ & Hlim & _)]].
  - now left.
  - right. now rewrite Hopp'.
  - rewrite Htk in Hlim. simpl in Hlim. contradiction.
Qed.

Lemma unpriced_taker_sweeps_witness :
  reachable book_3_3
  /\ getType (ord 3 Market Buy 10 0) <> Limit
  /\ exists ts o' b' tid',
       processOrder book_3_3 (ord 3 Market Buy 10 0) 1 = Some (ts, o', b', tid')
       /\ ((Market = FOK /\ canFOKfill book_3_3 (ord 3 Market Buy 10 0) = false)
           \/ getQuantity o' <= 0
           \/ asks_ b' = []).
Proof.
  split; [exact reachable_book_3_3|]. split; [discriminate|].
  exact (unpriced_taker_sweeps book_3_3 (ord 3 Market Buy 10 0) 1
           reachable_book_3_3 ltac:(discriminate)).
Defined.

(** ** Limit orders *)

Lemma PriceMap_push_has_key s m k o :
  exists q, In (k, q) (PriceMap_push s m k o).
Proof.
  induction m as [|[k0 q0] m IH]; simpl.
  - eexists. left. reflexivity.
  - destruct (key_before s k k0) eqn:Hlt; [eexists; left; reflexivity|].
    destruct (key_before s k0 k) eqn:Hgt.
    + destruct IH as [q Hq]. exists q. now right.
    + assert (k = k0) as -> by (eapply key_before_total; eassumption).
      eexists. left. reflexivity.
Qed.

(** X5.  On a reachable book a Limit order never trades at a price worse
    than its limit (above it for a buy, below it for a sell), and when a
    residual of it is left to rest, every level remaining on the opposite
    side is priced worse than the limit: the order took all it could. *)
Theorem limit_order_respects_limit b o tid :
  reachable b ->
  getType o = Limit ->
  exists ts o' b' tid',
    processOrder b o tid = Some (ts, o', b', tid')
    /\ (forall t, In t ts ->
          price_worse (getSide o) (getPrice o) (price t) = false)
    /\ (0 < getQuantity o' ->
        forall k q, In (k, q) (opp_side (getSide o) b') ->
          price_worse (getSide o) (getPrice o) k = true).
Proof.
  intros Hr Hl.
  destruct (processOrder_own_side b o tid Hr)
    as (ts & o' & b' & tid' & Hp & _ & Hpush).
  exists ts, o', b', tid'. split; [assumption|].
  split; [now apply (limit_taker_trades_within_limit _ _ _ _ _ _ _ Hp)|].
  intros Hq k q Hin.
  destruct (Hpush Hl Hq) as (Hown' & _).
  assert (Hok' : book_ok b')
    by (eapply processOrder_book_ok; [apply reachable_book_ok|]; eassumption).
  destruct Hok' as (_ & _ & Hfree).
  apply (crossed_free_apart (getSide o)) in Hfree.
  destruct (PriceMap_push_has_key (getSide o) (own_side (getSide o) b) (getPrice o) o')
    as [q0 Hq0].
  rewrite <- Hown' in Hq0.
  rewrite price_worse_key_before. exact (Hfree _ _ _ _ Hq0 Hin).
Qed.

Lemma limit_order_respects_limit_witness :
  reachable book_3_3
  /\ getType (ord 3 Limit Buy 5 100) = Limit
  /\ exists ts o' b' tid',
       processOrder book_3_3 (ord 3 Limit Buy 5 100) 1 = Some (ts, o', b', tid')
       /\ (forall t, In t ts -> price_worse Buy 100 (price t) = false)
       /\ (0 < getQuantity o' ->
           forall k q, In (k, q) (asks_ b') -> price_worse Buy 100 k = true).
Proof.
  split; [exact reachable_book_3_3|]. split; [reflexivity|].
  exact (limit_order_respects_limit book_3_3 (ord 3 Limit Buy 5 100) 1
           reachable_book_3_3 eq_refl).
Defined.

(** ** What [canFOKfill] decides *)

Lemma canFOKfill_scan_complete s o levels acc :
  getType o <> Limit ->
  side_ok s levels ->
  getQuantity o <= acc + side_total levels ->
  canFOKfill_scan o levels acc = true.
Proof.
  intros Hnl. revert acc.
  induction levels as [|[k q] m IH]; intros acc Hok Hle; simpl.
  - change (side_total []) with 0 in Hle. apply Z.leb_le. lia.
  - assert (OrderType_eqb (getType o) Limit = false) as ->
      by (destruct (getType o); congruence || reflexivity).
    simpl. rewrite level_quantity_sum. rewrite side_total_level in Hle.
    destruct (Z.leb_spec (getQuantity o)
                (acc + fold_right (fun o a => getQuantity o + a) 0 q));
      [reflexivity|].
    apply IH; [eapply side_ok_tail; eassumption|lia].
Qed.

(** ** Best bid and offer *)

(** X7.  [getBBO] has no answer exactly when a side of the book is
    empty.  On a reachable book its answer is the highest bid price and
    the lowest ask price: both are prices of levels of the book, no bid
    level is priced above [bestBid] and no ask level below [bestAsk]. *)
Theorem getBBO_best_prices b :
  reachable b ->
  (getBBO b = None <-> bids_ b = [] \/ asks_ b = [])
  /\ forall bbo,
       getBBO b = Some bbo ->
       (exists q, In (bestBid bbo, q) (bids_ b))
       /\ (forall k q, In (k, q) (bids_ b) -> k <= bestBid bbo)
       /\ (exists q, In (bestAsk bbo, q) (asks_ b))
       /\ (forall k q, In (k, q) (asks_ b) -> bestAsk bbo <= k).
Proof.
  intros Hr. destruct (reachable_book_ok _ Hr) as (Ha & Hb & _).
  unfold getBBO.
  destruct (bids_ b) as [|[pb qb] bs]; [|destruct (asks_ b) as [|[pa qa] az]].
  - split; [split; [now left|reflexivity]|discriminate].
  - split; [split; [now right|reflexivity]|discriminate].
  - split.
    { split; [discriminate|]. intros [|]; discriminate. }
    intros bbo Hbbo. injection Hbbo as <-. simpl.
    split; [exists qb; now left|].
    split.
    { intros k q Hin.
      destruct (side_ok_head_best _ _ _ _ _ _ Hb Hin) as [->|Hlt]; [lia|].
      simpl in Hlt. bool_to_Z. lia. }
    split; [exists qa; now left|].
    intros k q Hin.
    destruct (side_ok_head_best _ _ _ _ _ _ Ha Hin) as [->|Hlt]; [lia|].
    simpl in Hlt. bool_to_Z. lia.
Qed.

Lemma getBBO_best_prices_witness :
  reachable book_3_3
  /\ (getBBO book_3_3 = None <-> bids_ book_3_3 = [] \/ asks_ book_3_3 = [])
  /\ forall bbo,
       getBBO book_3_3 = Some bbo ->
       (exists q, In (bestBid bbo, q) (bids_ book_3_3))
       /\ (forall k q, In (k, q) (bids_ book_3_3) -> k <= bestBid bbo)
       /\ (exists q, In (bestAsk bbo, q) (asks_ book_3_3))
       /\ (forall k q, In (k, q) (asks_ book_3_3) -> bestAsk bbo <= k).
Proof.
  split; [exact reachable_book_3_3|].
  exact (getBBO_best_prices book_3_3 reachable_book_3_3).
Defined.

(** ** The invariants of a book *)

Lemma sorted_keys s (R : Z -> Z -> Prop) (m : PriceMap) :
  (forall a c, key_before s a c = true -> R a c) ->
  StronglySorted (fun a c => key_before s (fst a) (fst c) = true) m ->
  StronglySorted R (map fst m).
Proof.
  intros HR. induction 1 as [|lv m _ IH Hall]; simpl; constructor; [assumption|].
  apply List.Forall_forall. intros k Hk.
  apply in_map_iff in Hk as (lv' & <- & Hin).
  rewrite List.Forall_forall in Hall. exact (HR _ _ (Hall _ Hin)).
Qed.

(** X9.  In every reachable book the ask levels are in strictly
    increasing order of price and the bid levels in strictly decreasing
    order (so no price has two levels); no level has an empty queue; and
    every resting order has the price of its level, a positive quantity,
    type Limit and the side of the map it rests in. *)
Theorem reachable_book_invariants b :
  reachable b ->
  StronglySorted Z.lt (map fst (asks_ b))
  /\ StronglySorted Z.gt (map fst (bids_ b))
  /\ forall s k q,
       In (k, q) (own_side s b) ->
       q <> []
       /\ forall r, In r q ->
            getPrice r = k /\ 0 < getQuantity r
            /\ getType r = Limit /\ getSide r = s.
Proof.
  intros Hr. destruct (reachable_book_ok _ Hr) as ([Has Hal] & [Hbs Hbl] & _).
  split; [|split].
  - apply (sorted_keys Sell); [|exact Has]. simpl. intros a c H. now bool_to_Z.
  - apply (sorted_keys Buy); [|exact Hbs]. simpl. intros a c H. bool_to_Z. lia.
  - intros s k q Hin.
    assert (Hlv : level_ok s (k, q)).
    { destruct s; simpl in Hin;
        [rewrite List.Forall_forall in Hbl; exact (Hbl _ Hin)
        |rewrite List.Forall_forall in Hal; exact (Hal _ Hin)]. }
    destruct Hlv as [Hne Hall]. split; [assumption|].
    intros r Hr'. simpl in Hall. rewrite List.Forall_forall in Hall.
    exact (Hall _ Hr').
Qed.

Lemma reachable_book_invariants_witness :
  reachable book_3_3
  /\ StronglySorted Z.lt (map fst (asks_ book_3_3))
  /\ StronglySorted Z.gt (map fst (bids_ book_3_3))
  /\ forall s k q,
       In (k, q) (own_side s book_3_3) ->
       q <> []
       /\ forall r, In r q ->
            getPrice r = k /\ 0 < getQuantity r
            /\ getType r = Limit /\ getSide r = s.
Proof.
  split; [exact reachable_book_3_3|].
  exact (reachable_book_invariants book_3_3 reachable_book_3_3).
Defined.

(** ** What a call leaves on the opposite side *)

Lemma match_step_pop_priority st st1 key resting queue_tail others :
  opposite st = (key, resting :: queue_tail) :: others ->
  opposite st1 = match queue_tail with
                 | [] => others
                 | _ :: _ => (key, queue_tail) :: others
                 end ->
  priority_order (opposite st) = resting :: priority_order (opposite st1).
Proof. intros -> ->. now destruct queue_tail. Qed.

Lemma loop_run_remaining s st st' :
  loop_run s st st' ->
  exists new filled rest,
    trades st' = trades st ++ new
    /\ priority_order (opposite st) = filled ++ rest
    /\ ((length new = length filled
         /\ priority_order (opposite st') = rest)
        \/ exists m rest0 q,
             rest = m :: rest0
             /\ length new = S (length filled)
             /\ 0 < q < getQuantity m
             /\ priority_order (opposite st') = setQuantity m q :: rest0).
Proof.
  induction 1 as [st _|st st1 st' Hstep Hrun IH].
  - exists [], [], (priority_order (opposite st)).
    rewrite app_nil_r. split; [reflexivity|]. split; [reflexivity|].
    left. split; reflexivity.
  - apply match_step_next in Hstep
      as (key & resting & queue_tail & others & Hopp & Hq & _ & Ht0 & _ & Htaker & Hcase).
    destruct Hcase as [[Hle Hopp1]|[Hlt Hopp1]].
    + destruct IH as (new1 & filled1 & rest & Htr & Hprio & Hleft).
      eexists (_ :: new1), (resting :: filled1), rest.
      split; [rewrite Htr, Ht0, <- app_assoc; reflexivity|].
      split.
      { rewrite (match_step_pop_priority _ _ _ _ _ _ Hopp Hopp1), Hprio.
        reflexivity. }
      destruct Hleft as [[Hlen Hrest]|(m & rest0 & q & Hm & Hlen & Hq' & Hrest)].
      * left. split; [cbn [length]; lia|assumption].
      * right. exists m, rest0, q. repeat split; try assumption || lia.
        cbn [length]; lia.
    + assert (st' = st1) as ->.
      { eapply loop_run_no_quantity; [eassumption|].
        rewrite Htaker, getQuantity_setQuantity. lia. }
      eexists [_], [], _.
      split; [exact Ht0|]. split; [reflexivity|].
      right. rewrite Hopp, Hopp1.
      exists resting, (queue_tail ++ priority_order others),
        (getQuantity resting - getQuantity (taker st)).
      repeat split; lia || reflexivity.
Qed.

Lemma length_priority_order m : length (priority_order m) = order_count m.
Proof.
  induction m as [|[k q] m IH]; [reflexivity|].
  rewrite priority_order_cons, length_app, order_count_cons, IH. reflexivity.
Qed.

(** ** The engine *)

Section EngineFurther.

Variable to_string : Z -> string.
Variable dump : json -> string.

Lemma process_cases e o tid evs o' e' tid' :
  process to_string dump e o tid = Some (evs, o', e', tid') ->
  exists ts b',
    processOrder (book_of e (getSymbol o)) o tid = Some (ts, o', b', tid')
    /\ e' = {| order_books_ := <[getSymbol o := b']> (order_books_ e) |}
    /\ (evs = map TradeEvent ts
        \/ evs = map TradeEvent ts ++ broadcast_market_data to_string (getSymbol o) b').
Proof.
  unfold process. intros H.
  destruct (processOrder (book_of e (getSymbol o)) o tid)
    as [[[[ts o1] b1] tid1]|] eqn:Hp; [|discriminate].
  injection H as <- <- <- <-. exists ts, b1.
  split; [reflexivity|]. split; [reflexivity|].
  assert (Hts : match ts with [] => [] | _ :: _ => broadcast_trades ts end
                = map TradeEvent ts) by now destruct ts.
  rewrite Hts.
  destruct (negb _ || negb _); [now right|left; apply app_nil_r].
Qed.

Lemma process_total e o tid :
  reachable (book_of e (getSymbol o)) ->
  exists evs o' e' tid', process to_string dump e o tid = Some (evs, o', e', tid').
Proof.
  intros Hr.
  destruct (reachable_total _ o tid Hr) as (ts & o' & b' & tid' & Hp).
  unfold process. rewrite Hp. eauto.
Qed.

(** X11.  When the book of the order's symbol is reachable, [process]
    returns; it keeps for that symbol the book [processOrder] produced;
    and what it broadcasts is one trade event per trade, in the order of
    execution, followed by nothing or by a single depth event that shows
    the best bid and offer and the top-10 depth of the book after the
    call. *)
Theorem process_events_in_order e o tid :
  reachable (book_of e (getSymbol o)) ->
  exists evs o' e' tid' ts,
    process to_string dump e o tid = Some (evs, o', e', tid')
    /\ processOrder (book_of e (getSymbol o)) o tid
       = Some (ts, o', book_of e' (getSymbol o), tid')
    /\ (evs = map TradeEvent ts
        \/ evs = map TradeEvent ts
                 ++ [MarketDataEvent (getSymbol o)
                       (getBBO (book_of e' (getSymbol o)))
                       (getBookDepthAsJson to_string (book_of e' (getSymbol o)) 10 Buy)
                       (getBookDepthAsJson to_string (book_of e' (getSymbol o)) 10 Sell)]).
Proof.
  intros Hr.
  destruct (process_total e o tid Hr) as (evs & o' & e' & tid' & Hp).
  destruct (process_cases _ _ _ _ _ _ _ Hp) as (ts & b' & Hpo & -> & Hevs).
  eexists evs, o', _, tid', ts. rewrite book_of_insert.
  split; [eassumption|]. split; assumption.
Qed.

(** X12.  A call of [process] leaves the book of every symbol other than
    the order's as it was. *)
Theorem process_other_symbols e o tid evs o' e' tid' sym :
  process to_string dump e o tid = Some (evs, o', e', tid') ->
  sym <> getSymbol o ->
  book_of e' sym = book_of e sym.
Proof.
  intros Hp Hne.
  destruct (process_cases _ _ _ _ _ _ _ Hp) as (ts & b' & _ & -> & _).
  unfold book_of. simpl. now rewrite lookup_insert_ne.
Qed.

Lemma process_noop e o tid :
  getQuantity o <= 0
  \/ (getType o = FOK /\ canFOKfill (book_of e (getSymbol o)) o = false) ->
  exists e',
    process to_string dump e o tid = Some ([], o, e', tid)
    /\ forall sym, book_of e' sym = book_of e sym.
Proof.
  intros Hcase.
  assert (Hp : processOrder (book_of e (getSymbol o)) o tid
               = Some ([], o, book_of e (getSymbol o), tid)).
  { destruct Hcase as [Hq|[Hf Hc]]; [now apply processOrder_no_quantity|].
    unfold processOrder. now rewrite Hf, Hc. }
  unfold process. rewrite Hp. simpl. rewrite !String.eqb_refl. simpl.
  eexists. split; [reflexivity|].
  intros sym. unfold book_of at 1. simpl.
  destruct (decide (sym = getSymbol o)) as [->|Hne].
  - now rewrite lookup_insert_eq.
  - now rewrite lookup_insert_ne.
Qed.

(** X13.  An order with no quantity, and a FOK order that [canFOKfill]
    turns away, pass through [process] in silence: nothing is broadcast,
    the order and the trade counter come back as they went in, and every
    symbol has the book it had. *)
Theorem process_silent e o tid :
  getQuantity o <= 0
  \/ (getType o = FOK /\ canFOKfill (book_of e (getSymbol o)) o = false) ->
  exists e',
    process to_string dump e o tid = Some ([], o, e', tid)
    /\ forall sym, book_of e' sym = book_of e sym.
Proof. exact (process_noop e o tid). Qed.

Lemma engine_reachable_books e :
  engine_reachable to_string dump e -> forall sym, reachable (book_of e sym).
Proof.
  induction 1 as [|e o tid evs o' e' tid' _ IH Hp]; intros sym.
  - apply reachable_empty.
  - destruct (process_cases _ _ _ _ _ _ _ Hp) as (ts & b' & Hpo & -> & _).
    destruct (decide (sym = getSymbol o)) as [->|Hne].
    + rewrite book_of_insert. eapply reachable_process; [apply IH|eassumption].
    + unfold book_of. simpl. rewrite lookup_insert_ne by congruence. apply IH.
Qed.

(** X14.  Whatever orders a new engine has processed, [process] returns
    for the next one, and the book of every symbol is then free of
    crossing -- each bid price below each ask price -- including the
    symbols no order has named yet, whose book is empty. *)
Theorem engine_never_crossed e o tid :
  engine_reachable to_string dump e ->
  exists evs o' e' tid',
    process to_string dump e o tid = Some (evs, o', e', tid')
    /\ forall sym pb qb pa qa,
         In (pb, qb) (bids_ (book_of e' sym)) ->
         In (pa, qa) (asks_ (book_of e' sym)) ->
         pb < pa.
Proof.
  intros He.
  destruct (process_total e o tid (engine_reachable_books e He _))
    as (evs & o' & e' & tid' & Hp).
  exists evs, o', e', tid'. split; [assumption|].
  intros sym.
  assert (He' : engine_reachable to_string dump e')
    by (eapply engine_process; eassumption).
  apply (reachable_book_ok _ (engine_reachable_books e' He' sym)).
Qed.

End EngineFurther.

Lemma process_other_symbols_witness :
  process to_string_integral dump_compact
    {| order_books_ := ∅ |} (ord 1 Limit Sell 3 100) 1
  = Some ([MarketDataEvent "BTC-USDT" None (JArray [])
             (JArray [JArray [JString "100.000000"; JString "3.000000"]])],
          ord 1 Limit Sell 3 100, engine_one_ask, 1)
  /\ "ETH-USDT" <> getSymbol (ord 1 Limit Sell 3 100)
  /\ book_of engine_one_ask "ETH-USDT" = book_of {| order_books_ := ∅ |} "ETH-USDT".
Proof.
  assert (Hp : process to_string_integral dump_compact
                 {| order_books_ := ∅ |} (ord 1 Limit Sell 3 100) 1
               = Some ([MarketDataEvent "BTC-USDT" None (JArray [])
                          (JArray [JArray [JString "100.000000"; JString "3.000000"]])],
                       ord 1 Limit Sell 3 100, engine_one_ask, 1))
    by (vm_compute; reflexivity).
  split; [exact Hp|]. split; [discriminate|].
  apply (process_other_symbols to_string_integral dump_compact _ _ _ _ _ _ _ _ Hp).
  discriminate.
Defined.

Lemma process_events_in_order_witness :
  reachable (book_of {| order_books_ := ∅ |} (getSymbol (ord 1 Limit Sell 3 100)))
  /\ exists evs o' e' tid' ts,
       process to_string_integral dump_compact
         {| order_books_ := ∅ |} (ord 1 Limit Sell 3 100) 1
       = Some (evs, o', e', tid')
       /\ processOrder (book_of {| order_books_ := ∅ |} "BTC-USDT")
            (ord 1 Limit Sell 3 100) 1
          = Some (ts, o', book_of e' "BTC-USDT", tid')
       /\ (evs = map TradeEvent ts
           \/ evs = map TradeEvent ts
                    ++ [MarketDataEvent "BTC-USDT"
                          (getBBO (book_of e' "BTC-USDT"))
                          (getBookDepthAsJson to_string_integral
                             (book_of e' "BTC-USDT") 10 Buy)
                          (getBookDepthAsJson to_string_integral
                             (book_of e' "BTC-USDT") 10 Sell)]).
Proof.
  split; [exact reachable_empty|].
  exact (process_events_in_order to_string_integral dump_compact
           {| order_books_ := ∅ |} (ord 1 Limit Sell 3 100) 1 reachable_empty).
Defined.

Lemma process_silent_witness :
  (getQuantity (ord 2 Market Buy 0 0) <= 0
   \/ (getType (ord 2 Market Buy 0 0) = FOK
       /\ canFOKfill (book_of engine_one_ask "BTC-USDT") (ord 2 Market Buy 0 0) = false))
  /\ exists e',
       process to_string_integral dump_compact engine_one_ask (ord 2 Market Buy 0 0) 5
       = Some ([], ord 2 Market Buy 0 0, e', 5)
       /\ forall sym, book_of e' sym = book_of engine_one_ask sym.
Proof.
  assert (H : getQuantity (ord 2 Market Buy 0 0) <= 0) by (simpl; lia).
  split; [left; exact H|].
  exact (process_silent to_string_integral dump_compact engine_one_ask
           (ord 2 Market Buy 0 0) 5 (or_introl H)).
Defined.

Lemma engine_never_crossed_witness :
  engine_reachable to_string_integral dump_compact {| order_books_ := ∅ |}
  /\ exists evs o' e' tid',
       process to_string_integral dump_compact
         {| order_books_ := ∅ |} (ord 1 Limit Sell 3 100) 1
       = Some (evs, o', e', tid')
       /\ forall sym pb qb pa qa,
            In (pb, qb) (bids_ (book_of e' sym)) ->
            In (pa, qa) (asks_ (book_of e' sym)) ->
            pb < pa.
Proof.
  split; [apply engine_new|].
  exact (engine_never_crossed to_string_integral dump_compact
           {| order_books_ := ∅ |} (ord 1 Limit Sell 3 100) 1
           (engine_new to_string_integral dump_compact)).
Defined.

(** ** Identifiers of resting orders *)

Lemma setQuantity_id o q : getOrderID (setQuantity o q) = getOrderID o.
Proof. reflexivity. Qed.

Lemma PriceMap_push_permutation s m k o :
  Permutation (priority_order (PriceMap_push s m k o)) (o :: priority_order m).
Proof.
  induction m as [|[k0 q0] m IH]; simpl.
  - reflexivity.
  - destruct (key_before s k k0); [reflexivity|].
    destruct (key_before s k0 k).
    + rewrite !priority_order_cons, IH. symmetry. apply Permutation_middle.
    + rewrite !priority_order_cons, <- app_assoc. simpl.
      symmetry. apply Permutation_middle.
Qed.

Lemma resting_ids_sides s b :
  Permutation (resting_ids b)
    (map getOrderID (priority_order (opp_side s b))
     ++ map getOrderID (priority_order (own_side s b))).
Proof.
  unfold resting_ids. rewrite map_app.
  destruct s; simpl; [reflexivity|apply Permutation_app_comm].
Qed.

(** One call and the identifiers in the book: none is duplicated and none
    appears except that of the incoming order. *)
Lemma processOrder_resting_ids b o tid ts o' b' tid' :
  processOrder b o tid = Some (ts, o', b', tid') ->
  List.NoDup (resting_ids b) ->
  ~ In (getOrderID o) (resting_ids b) ->
  List.NoDup (resting_ids b')
  /\ forall id, In id (resting_ids b') ->
                id = getOrderID o \/ In id (resting_ids b).
Proof.
  intros Hp Hnd Hfresh.
  apply processOrder_cases in Hp
    as [(_ & _ & _ & _ & -> & _)|(st' & _ & Hloop & _ & -> & _ & Hopp' & Hown')];
    [split; [assumption|intros id Hin; now right]|].
  apply match_loop_run in Hloop.
  pose proof (loop_run_taker _ _ _ Hloop) as Htk. simpl in Htk.
  assert (Hid : getOrderID (taker st') = getOrderID o) by (rewrite Htk; reflexivity).
  apply loop_run_remaining in Hloop as (new & filled & rest & _ & Hprio & Hcase).
  simpl in Hprio.
  set (opp_ids := map getOrderID (priority_order (opp_side (getSide o) b))) in *.
  set (own_ids := map getOrderID (priority_order (own_side (getSide o) b))) in *.
  assert (Hsuffix : opp_ids
                    = map getOrderID filled
                      ++ map getOrderID (priority_order (opp_side (getSide o) b'))).
  { unfold opp_ids. rewrite Hprio, map_app, Hopp'. f_equal.
    destruct Hcase as [[_ ->]|(m & rest0 & q & -> & _ & _ & ->)]; reflexivity. }
  assert (Hown_ids :
            Permutation (map getOrderID (priority_order (own_side (getSide o) b')))
                        own_ids
            \/ Permutation (map getOrderID (priority_order (own_side (getSide o) b')))
                           (getOrderID o :: own_ids)).
  { rewrite Hown'.
    destruct ((0 <? getQuantity (taker st'))
              && OrderType_eqb (getType (taker st')) Limit); [right|now left].
    rewrite PriceMap_push_permutation. simpl. now rewrite Hid. }
  pose proof (resting_ids_sides (getSide o) b) as Hperm. fold opp_ids own_ids in Hperm.
  pose proof (resting_ids_sides (getSide o) b') as Hperm'.
  set (opp_ids' := map getOrderID (priority_order (opp_side (getSide o) b'))) in *.
  assert (Hnd0 : List.NoDup (opp_ids' ++ own_ids)).
  { apply (Permutation_NoDup Hperm) in Hnd.
    rewrite Hsuffix, <- app_assoc in Hnd. exact (List.NoDup_app_remove_l _ _ Hnd). }
  assert (Hsub : forall id, In id (opp_ids' ++ own_ids) -> In id (resting_ids b)).
  { intros id Hin. apply (Permutation_in _ (Permutation_sym Hperm)).
    rewrite Hsuffix. apply in_app_or in Hin as [Hin|Hin];
      apply in_or_app; [left; apply in_or_app; now right|now right]. }
  destruct Hown_ids as [Hown_ids|Hown_ids].
  - assert (Hall : Permutation (resting_ids b') (opp_ids' ++ own_ids))
      by (rewrite Hperm', Hown_ids; reflexivity).
    split; [exact (Permutation_NoDup (Permutation_sym Hall) Hnd0)|].
    intros id Hin. right. apply Hsub. exact (Permutation_in _ Hall Hin).
  - assert (Hall : Permutation (resting_ids b')
                     (getOrderID o :: opp_ids' ++ own_ids)).
    { rewrite Hperm', Hown_ids. symmetry. apply Permutation_middle. }
    split.
    + apply (Permutation_NoDup (Permutation_sym Hall)).
      constructor; [|assumption]. intros Hin. apply Hfresh. now apply Hsub.
    + intros id Hin. apply (Permutation_in _ Hall) in Hin as [<-|Hin];
        [now left|right; now apply Hsub].
Qed.

(** ** main.cpp: the request handler *)

Lemma StringToSide_accepts str s :
  StringToSide str = inl s <-> str = aggressor_side_text s.
Proof.
  unfold StringToSide.
  destruct (String.eqb_spec str "buy") as [->|Hb].
  { destruct s; simpl; split; congruence. }
  destruct (String.eqb_spec str "sell") as [->|Hs].
  { destruct s; simpl; split; congruence. }
  split; [discriminate|]. destruct s; simpl; congruence.
Qed.

(** X15.  [StringToSide] accepts exactly the two texts that
    [broadcast_trades] writes under [aggressor_side], and reads each back
    as the side it was written for; any other text, in particular one
    that differs in letter case, raises the exception. *)
Theorem StringToSide_inverts_aggressor_text :
  (forall s, StringToSide (aggressor_side_text s) = inl s)
  /\ (forall str s, StringToSide str = inl s -> str = aggressor_side_text s)
  /\ (forall str,
        str <> "buy"%string -> str <> "sell"%string ->
        exists message, StringToSide str = inr message).
Proof.
  split; [intros s; now apply StringToSide_accepts|].
  split; [intros str s; apply StringToSide_accepts|].
  intros str Hb Hs. unfold StringToSide.
  destruct (String.eqb_spec str "buy"); [contradiction|].
  destruct (String.eqb_spec str "sell"); [contradiction|]. eauto.
Qed.

Lemma StringToOrderType_ok str :
  In str order_type_texts <-> exists ty, StringToOrderType str = inl ty.
Proof.
  unfold StringToOrderType, order_type_texts.
  destruct (String.eqb_spec str "market") as [->|H1];
    [split; [eauto|intros _; simpl; tauto]|].
  destruct (String.eqb_spec str "limit") as [->|H2];
    [split; [eauto|intros _; simpl; tauto]|].
  destruct (String.eqb_spec str "ioc") as [->|H3];
    [split; [eauto|intros _; simpl; tauto]|].
  destruct (String.eqb_spec str "fok") as [->|H4];
    [split; [eauto|intros _; simpl; tauto]|].
  split.
  - intros [E|[E|[E|[E|[]]]]]; congruence.
  - intros [ty Hty]. discriminate.
Qed.

Lemma StringToSide_ok str :
  In str side_texts <-> exists sd, StringToSide str = inl sd.
Proof.
  unfold StringToSide, side_texts.
  destruct (String.eqb_spec str "buy") as [->|H1];
    [split; [eauto|intros _; simpl; tauto]|].
  destruct (String.eqb_spec str "sell") as [->|H2];
    [split; [eauto|intros _; simpl; tauto]|].
  split.
  - intros [E|[E|[]]]; congruence.
  - intros [sd Hsd]. discriminate.
Qed.

Section Handler.

Variable to_string : Z -> string.
Variable dump : json -> string.

Lemma order_handler_cases srv sym order_type side quantity price resp evs srv' :
  order_handler to_string dump srv sym order_type side quantity price
  = Some (resp, evs, srv') ->
  ((~ In order_type order_type_texts \/ ~ In side side_texts)
   /\ (exists message, resp = BadRequest message) /\ evs = [] /\ srv' = srv)
  \/ exists ty sd o' e' tid',
       StringToOrderType order_type = inl ty
       /\ StringToSide side = inl sd
       /\ process to_string dump (engine srv)
            (mkOrder (Order_next_order_id_ srv) ty sd price quantity sym)
            (Trade_next_trade_id srv)
          = Some (evs, o', e', tid')
       /\ resp = OrderReceived (Order_next_order_id_ srv)
       /\ srv' = {| engine := e';
                    Order_next_order_id_ := Order_next_order_id_ srv + 1;
                    Trade_next_trade_id := tid' |}.
Proof.
  unfold order_handler. intros H.
  destruct (StringToOrderType order_type) as [ty|msg] eqn:Hty.
  2:{ left. injection H as <- <- <-.
      split; [|split; [eauto|split; reflexivity]].
      left. intros Hin. apply StringToOrderType_ok in Hin as [ty Hty'].
      congruence. }
  destruct (StringToSide side) as [sd|msg] eqn:Hsd.
  2:{ left. injection H as <- <- <-.
      split; [|split; [eauto|split; reflexivity]].
      right. intros Hin. apply StringToSide_ok in Hin as [sd Hsd'].
      congruence. }
  right. simpl in H.
  destruct (process to_string dump (engine srv) _ (Trade_next_trade_id srv))
    as [[[[evs1 o1] e1] tid1]|] eqn:Hp; [|discriminate].
  injection H as <- <- <-. exists ty, sd, o1, e1, tid1.
  repeat split; assumption || reflexivity.
Qed.

(** X16.  A request whose order type is not one of [market], [limit],
    [ioc], [fok], or whose side is not one of [buy], [sell], is answered
    by [order_handler] with an error; and a request answered with an
    error changes nothing: nothing is broadcast, no identifier is used
    up, the engine is as before. *)
Theorem order_handler_rejection srv sym order_type side quantity price :
  ((~ In order_type order_type_texts \/ ~ In side side_texts) ->
   exists message,
     order_handler to_string dump srv sym order_type side quantity price
     = Some (BadRequest message, [], srv))
  /\ forall message evs srv',
       order_handler to_string dump srv sym order_type side quantity price
       = Some (BadRequest message, evs, srv') ->
       evs = [] /\ srv' = srv.
Proof.
  split.
  - intros Hbad. unfold order_handler.
    destruct (StringToOrderType order_type) as [ty|msg] eqn:Hty; [|eauto].
    destruct (StringToSide side) as [sd|msg] eqn:Hsd; [|eauto].
    exfalso. destruct Hbad as [Hbad|Hbad]; apply Hbad.
    + apply StringToOrderType_ok. eauto.
    + apply StringToSide_ok. eauto.
  - intros msg evs srv' H. apply order_handler_cases in H
      as [(_ & _ & -> & ->)|(ty & sd & o' & e' & tid' & _ & _ & _ & Hresp & _)];
      [split; reflexivity|discriminate].
Qed.

(** X17.  With an accepted order type and side, [order_handler] lets any
    quantity pass, zero and negative ones too: such a request is answered
    with the next order identifier, which is used up (the order counter,
    not yet at [INT_MAX], moves on by one), but nothing is broadcast, the
    trade counter stays and every book is as before. *)
Theorem order_handler_accepts_empty_order srv sym order_type side quantity price :
  In order_type order_type_texts ->
  In side side_texts ->
  quantity <= 0 ->
  INT_MIN <= Order_next_order_id_ srv < INT_MAX ->
  exists srv',
    order_handler to_string dump srv sym order_type side quantity price
    = Some (OrderReceived (Order_next_order_id_ srv), [], srv')
    /\ Order_next_order_id_ srv' = Order_next_order_id_ srv + 1
    /\ Trade_next_trade_id srv' = Trade_next_trade_id srv
    /\ forall s, book_of (engine srv') s = book_of (engine srv) s.
Proof.
  intros Hty Hsd Hq _.
  apply StringToOrderType_ok in Hty as [ty Hty].
  apply StringToSide_ok in Hsd as [sd Hsd].
  unfold order_handler. rewrite Hty, Hsd. simpl.
  destruct (process_noop to_string dump (engine srv)
              (mkOrder (Order_next_order_id_ srv) ty sd price quantity sym)
              (Trade_next_trade_id srv) (or_introl Hq)) as (e' & -> & Hbooks).
  eexists. split; [reflexivity|]. simpl. repeat split. exact Hbooks.
Qed.

Lemma server_reachable_engine srv :
  server_reachable to_string dump srv ->
  engine_reachable to_string dump (engine srv).
Proof.
  induction 1 as [|srv sym ot sd q p resp evs srv' _ IH H]; [apply engine_new|].
  apply order_handler_cases in H
    as [(_ & _ & _ & ->)|(ty & sd' & o' & e' & tid' & _ & _ & Hp & _ & ->)];
    [assumption|].
  simpl. eapply engine_process; eassumption.
Qed.

(** X18.  Whatever requests the server has handled, a request with an
    accepted order type and side is answered with the current value of
    the order counter as its identifier, and the order counter, not yet
    at [INT_MAX], moves on by one. *)
Theorem order_handler_assigns_next_id srv sym order_type side quantity price :
  server_reachable to_string dump srv ->
  In order_type order_type_texts ->
  In side side_texts ->
  INT_MIN <= Order_next_order_id_ srv < INT_MAX ->
  exists evs srv',
    order_handler to_string dump srv sym order_type side quantity price
    = Some (OrderReceived (Order_next_order_id_ srv), evs, srv')
    /\ Order_next_order_id_ srv' = Order_next_order_id_ srv + 1.
Proof.
  intros Hsrv Hty Hsd _.
  apply StringToOrderType_ok in Hty as [ty Hty].
  apply StringToSide_ok in Hsd as [sd Hsd].
  set (o := mkOrder (Order_next_order_id_ srv) ty sd price quantity sym).
  destruct (process_total to_string dump (engine srv) o (Trade_next_trade_id srv))
    as (evs & o' & e' & tid' & Hp).
  { apply (engine_reachable_books to_string dump).
    now apply server_reachable_engine. }
  unfold order_handler. rewrite Hty, Hsd. simpl. fold o. rewrite Hp.
  eexists _, _. split; reflexivity.
Qed.

Lemma server_resting_ids srv :
  server_reachable to_string dump srv ->
  forall sym,
    List.NoDup (resting_ids (book_of (engine srv) sym))
    /\ forall id, In id (resting_ids (book_of (engine srv) sym)) ->
                  id < Order_next_order_id_ srv.
Proof.
  induction 1 as [|srv sym0 ot sd q p resp evs srv' _ IH H]; intros sym.
  - simpl. split; [constructor|intros id []].
  - apply order_handler_cases in H
      as [(_ & _ & _ & ->)|(ty & sd' & o' & e' & tid' & _ & _ & Hp & _ & ->)];
      [apply IH|].
    simpl.
    destruct (process_cases _ _ _ _ _ _ _ _ _ Hp) as (ts & b' & Hpo & -> & _).
    simpl in Hpo |- *.
    destruct (decide (sym = sym0)) as [->|Hne].
    + rewrite book_of_insert.
      destruct (IH sym0) as [Hnd Hlt].
      destruct (processOrder_resting_ids _ _ _ _ _ _ _ Hpo Hnd) as [Hnd' Hin'].
      { simpl. intros Hin. apply Hlt in Hin. lia. }
      split; [assumption|].
      intros id Hin. destruct (Hin' id Hin) as [->|Hold]; [simpl; lia|].
      apply Hlt in Hold. lia.
    + unfold book_of at 1 2. simpl. rewrite lookup_insert_ne by congruence.
      destruct (IH sym) as [Hnd Hlt]. split; [assumption|].
      intros id Hin. apply Hlt in Hin. lia.
Qed.

(** X19.  Whatever requests the server has handled, as long as the order
    counter has not passed [INT_MAX], the orders resting in the book of
    a symbol have pairwise distinct identifiers, all of them below the
    current value of the order counter: an identifier names at most one
    resting order of a book, and the next order accepted cannot collide
    with any. *)
Theorem resting_order_ids_unique srv sym :
  server_reachable to_string dump srv ->
  Order_next_order_id_ srv <= INT_MAX ->
  List.NoDup (resting_ids (book_of (engine srv) sym))
  /\ forall id, In id (resting_ids (book_of (engine srv) sym)) ->
                id < Order_next_order_id_ srv.
Proof. intros H _. exact (server_resting_ids srv H sym). Qed.

End Handler.

Lemma server_one_ask_reachable :
  server_reachable to_string_integral dump_compact server_one_ask.
Proof.
  apply (server_request to_string_integral dump_compact
           {| engine := {| order_books_ := ∅ |};
              Order_next_order_id_ := 1; Trade_next_trade_id := 1 |}
           "BTC-USDT" "limit" "sell" 3 100
           (OrderReceived 1)
           [MarketDataEvent "BTC-USDT" None (JArray [])
              (JArray [JArray [JString "100.000000"; JString "3.000000"]])]
           server_one_ask).
  - apply server_start; unfold INT_MIN, INT_MAX; lia.
  - vm_compute. reflexivity.
Qed.

Lemma order_handler_accepts_empty_order_witness :
  In "market"%string order_type_texts
  /\ In "buy"%string side_texts
  /\ -4 <= 0
  /\ INT_MIN <= Order_next_order_id_ server_one_ask < INT_MAX
  /\ exists srv',
       order_handler to_string_integral dump_compact server_one_ask
         "BTC-USDT" "market" "buy" (-4) 0
       = Some (OrderReceived 2, [], srv')
       /\ Order_next_order_id_ srv' = 2 + 1
       /\ Trade_next_trade_id srv' = 1
       /\ forall s, book_of (engine srv') s = book_of engine_one_ask s.
Proof.
  assert (H1 : In "market"%string order_type_texts) by (simpl; tauto).
  assert (H2 : In "buy"%string side_texts) by (simpl; tauto).
  assert (H3 : -4 <= 0) by lia.
  assert (H4 : INT_MIN <= Order_next_order_id_ server_one_ask < INT_MAX)
    by (unfold INT_MIN, INT_MAX; simpl; lia).
  split; [exact H1|]. split; [exact H2|]. split; [exact H3|]. split; [exact H4|].
  exact (order_handler_accepts_empty_order to_string_integral dump_compact
           server_one_ask "BTC-USDT" "market" "buy" (-4) 0 H1 H2 H3 H4).
Defined.

Lemma order_handler_assigns_next_id_witness :
  server_reachable to_string_integral dump_compact server_one_ask
  /\ INT_MIN <= Order_next_order_id_ server_one_ask < INT_MAX
  /\ exists evs srv',
       order_handler to_string_integral dump_compact server_one_ask
         "BTC-USDT" "ioc" "buy" 2 0
       = Some (OrderReceived 2, evs, srv')
       /\ Order_next_order_id_ srv' = 2 + 1.
Proof.
  assert (H4 : INT_MIN <= Order_next_order_id_ server_one_ask < INT_MAX)
    by (unfold INT_MIN, INT_MAX; simpl; lia).
  split; [exact server_one_ask_reachable|]. split; [exact H4|].
  exact (order_handler_assigns_next_id to_string_integral dump_compact
           server_one_ask "BTC-USDT" "ioc" "buy" 2 0 server_one_ask_reachable
           ltac:(simpl; tauto) ltac:(simpl; tauto) H4).
Defined.

Lemma resting_order_ids_unique_witness :
  server_reachable to_string_integral dump_compact server_one_ask
  /\ Order_next_order_id_ server_one_ask <= INT_MAX
  /\ List.NoDup (resting_ids (book_of engine_one_ask "BTC-USDT"))
  /\ forall id, In id (resting_ids (book_of engine_one_ask "BTC-USDT")) -> id < 2.
Proof.
  assert (H4 : Order_next_order_id_ server_one_ask <= INT_MAX)
    by (unfold INT_MAX; simpl; lia).
  split; [exact server_one_ask_reachable|]. split; [exact H4|].
  exact (resting_order_ids_unique to_string_integral dump_compact
           server_one_ask "BTC-USDT" server_one_ask_reachable H4).
Defined.

(** ** Where resting orders and trade symbols come from *)

Lemma processOrder_resting_orders b o tid ts o' b' tid' :
  processOrder b o tid = Some (ts, o', b', tid') ->
  forall r, In r (resting_orders b') ->
    exists r0 q,
      r = setQuantity r0 q /\ (r0 = o \/ In r0 (resting_orders b)).
Proof.
  intros Hp r Hin.
  assert (Hsame : forall x, In x (resting_orders b) ->
                    exists r0 q, x = setQuantity r0 q
                                 /\ (r0 = o \/ In r0 (resting_orders b))).
  { intros x Hx. exists x, (getQuantity x).
    split; [symmetry; apply setQuantity_same|now right]. }
  apply processOrder_cases in Hp
    as [(_ & _ & _ & _ & -> & _)|(st' & _ & Hloop & _ & -> & _ & Hopp' & Hown')];
    [now apply Hsame|].
  apply match_loop_run in Hloop.
  pose proof (loop_run_taker _ _ _ Hloop) as Htk. simpl in Htk.
  apply loop_run_remaining in Hloop as (new & filled & rest & _ & Hprio & Hcase).
  simpl in Hprio.
  assert (Hsides : forall x c,
            In x (resting_orders c)
            <-> In x (priority_order (opp_side (getSide o) c))
                \/ In x (priority_order (own_side (getSide o) c))).
  { intros x c. unfold resting_orders. rewrite in_app_iff.
    destruct (getSide o); simpl; tauto. }
  apply Hsides in Hin as [Hin|Hin].
  - (* opposite side: an order of the rest, the first perhaps reduced *)
    rewrite Hopp' in Hin.
    assert (Hrest : forall x, In x rest -> In x (resting_orders b)).
    { intros x Hx. apply Hsides. left. rewrite Hprio. apply in_or_app. now right. }
    destruct Hcase as [[_ Heq]|(m & rest0 & q & -> & _ & _ & Heq)];
      rewrite Heq in Hin.
    + apply Hsame, Hrest, Hin.
    + destruct Hin as [<-|Hin].
      * exists m, q. split; [reflexivity|]. right. apply Hrest. now left.
      * apply Hsame, Hrest. now right.
  - (* own side: the residual of the order, or an order already there *)
    rewrite Hown' in Hin.
    destruct ((0 <? getQuantity (taker st'))
              && OrderType_eqb (getType (taker st')) Limit).
    + apply (Permutation_in _ (PriceMap_push_permutation _ _ _ _)) in Hin
        as [<-|Hin].
      * exists o, (getQuantity (taker st')). split; [exact Htk|now left].
      * apply Hsame, Hsides. now right.
    + apply Hsame, Hsides. now right.
Qed.

Lemma loop_run_symbols s st st' :
  loop_run s st st' ->
  exists new,
    trades st' = trades st ++ new
    /\ forall t, In t new ->
         exists m, In m (priority_order (opposite st)) /\ symbol t = getSymbol m.
Proof.
  induction 1 as [st _|st st1 st' Hstep _ IH].
  - exists []. rewrite app_nil_r. split; [reflexivity|]. intros t [].
  - destruct IH as (new1 & Htr & Hsym).
    apply match_step_next in Hstep
      as (key & resting & queue_tail & others & Hopp & _ & _ & Ht0 & _ & _ & Hcase).
    eexists (_ :: new1).
    split; [rewrite Htr, Ht0, <- app_assoc; reflexivity|].
    intros t [<-|Hin].
    { exists resting. rewrite Hopp. split; [now left|reflexivity]. }
    destruct (Hsym t Hin) as (m & Hm & Hs).
    destruct Hcase as [[_ Hopp1]|[_ Hopp1]].
    + exists m. split; [|assumption].
      rewrite (match_step_pop_priority _ _ _ _ _ _ Hopp Hopp1). now right.
    + rewrite Hopp1, priority_order_cons in Hm. rewrite Hopp, priority_order_cons.
      destruct Hm as [<-|Hm].
      * exists resting. split; [now left|assumption].
      * exists m. split; [now right|assumption].
Qed.

(** X20.  Every order resting in the book after [processOrder] is either
    an order that rested there before or the incoming order, with at most
    its quantity changed: the call invents no order and rewrites no
    identifier, type, side, price or symbol. *)
Theorem resting_orders_origin b o tid :
  reachable b ->
  exists ts o' b' tid',
    processOrder b o tid = Some (ts, o', b', tid')
    /\ forall r, In r (resting_orders b') ->
         exists r0 q,
           r = setQuantity r0 q /\ (r0 = o \/ In r0 (resting_orders b)).
Proof.
  intros Hr.
  destruct (reachable_total b o tid Hr) as (ts & o' & b' & tid' & Hp).
  exists ts, o', b', tid'. split; [assumption|].
  exact (processOrder_resting_orders _ _ _ _ _ _ _ Hp).
Qed.

Lemma resting_orders_origin_witness :
  reachable book_3_3
  /\ exists ts o' b' tid',
       processOrder book_3_3 (ord 3 Limit Buy 5 100) 1 = Some (ts, o', b', tid')
       /\ forall r, In r (resting_orders b') ->
            exists r0 q,
              r = setQuantity r0 q
              /\ (r0 = ord 3 Limit Buy 5 100 \/ In r0 (resting_orders book_3_3)).
Proof.
  split; [exact reachable_book_3_3|].
  exact (resting_orders_origin book_3_3 (ord 3 Limit Buy 5 100) 1 reachable_book_3_3).
Defined.

Section EngineSymbols.

Variable to_string : Z -> string.
Variable dump : json -> string.

Lemma engine_reachable_symbols e :
  engine_reachable to_string dump e ->
  forall sym r, In r (resting_orders (book_of e sym)) -> getSymbol r = sym.
Proof.
  induction 1 as [|e o tid evs o' e' tid' _ IH Hp]; intros sym r Hin.
  - destruct Hin.
  - destruct (process_cases _ _ _ _ _ _ _ _ _ Hp) as (ts & b' & Hpo & -> & _).
    destruct (decide (sym = getSymbol o)) as [->|Hne].
    + rewrite book_of_insert in Hin.
      destruct (processOrder_resting_orders _ _ _ _ _ _ _ Hpo r Hin)
        as (r0 & q & -> & [->|Hold]); [reflexivity|].
      simpl. now apply IH.
    + unfold book_of in Hin. simpl in Hin.
      rewrite lookup_insert_ne in Hin by congruence. now apply IH.
Qed.

(** X21.  Whatever orders a new engine has processed, the trade events
    of the next call of [process] all carry the symbol of the order
    processed -- although [Trade] takes its symbol from the resting
    order -- because an order only ever rests in the book of its own
    symbol. *)
Theorem trade_events_carry_order_symbol e o tid :
  engine_reachable to_string dump e ->
  exists evs o' e' tid',
    process to_string dump e o tid = Some (evs, o', e', tid')
    /\ (forall t, In (TradeEvent t) evs -> symbol t = getSymbol o)
    /\ forall sym r, In r (resting_orders (book_of e' sym)) -> getSymbol r = sym.
Proof.
  intros He.
  destruct (process_total to_string dump e o tid
              (engine_reachable_books to_string dump e He _))
    as (evs & o' & e' & tid' & Hp).
  exists evs, o', e', tid'. split; [assumption|].
  split.
  - intros t Hin.
    destruct (process_cases _ _ _ _ _ _ _ _ _ Hp) as (ts & b' & Hpo & _ & Hevs).
    assert (Hts : In t ts).
    { assert (Hmap : In (TradeEvent t) (map TradeEvent ts)).
      { destruct Hevs as [->| ->]; [assumption|].
        apply in_app_or in Hin as [Hin|[Hin|[]]]; [assumption|discriminate]. }
      apply in_map_iff in Hmap as (t' & Heq & Hin'). now injection Heq as <-. }
    apply processOrder_cases in Hpo
      as [(_ & _ & -> & _)|(st' & _ & Hloop & -> & _)]; [destruct Hts|].
    apply match_loop_run, loop_run_symbols in Hloop as (new & Htr & Hsym).
    simpl in Htr, Hsym. subst new.
    destruct (Hsym t Hts) as (m & Hm & ->).
    apply (engine_reachable_symbols e He).
    unfold resting_orders. apply in_or_app.
    destruct (getSide o); simpl in Hm; [now left|now right].
  - apply engine_reachable_symbols. eapply engine_process; eassumption.
Qed.

End EngineSymbols.

Lemma engine_one_ask_reachable :
  engine_reachable to_string_integral dump_compact engine_one_ask.
Proof.
  apply (engine_process to_string_integral dump_compact
           {| order_books_ := ∅ |} (ord 1 Limit Sell 3 100) 1
           [MarketDataEvent "BTC-USDT" None (JArray [])
              (JArray [JArray [JString "100.000000"; JString "3.000000"]])]
           (ord 1 Limit Sell 3 100) engine_one_ask 1).
  - apply engine_new.
  - vm_compute. reflexivity.
Qed.

Lemma trade_events_carry_order_symbol_witness :
  engine_reachable to_string_integral dump_compact engine_one_ask
  /\ exists evs o' e' tid',
       process to_string_integral dump_compact
         engine_one_ask (ord 2 Market Buy 2 0) 1
       = Some (evs, o', e', tid')
       /\ (forall t, In (TradeEvent t) evs -> symbol t = "BTC-USDT"%string)
       /\ forall sym r, In r (resting_orders (book_of e' sym)) -> getSymbol r = sym.
Proof.
  split; [exact engine_one_ask_reachable|].
  exact (trade_events_carry_order_symbol to_string_integral dump_compact
           engine_one_ask (ord 2 Market Buy 2 0) 1 engine_one_ask_reachable).
Defined.

(** * The code over arithmetic that may round *)

(** The second model run with exact arithmetic is the first. *)
Lemma reduceQuantity_r_exact o amount :
  reduceQuantity_r Z.sub o amount = reduceQuantity o amount.
Proof. reflexivity. Qed.

Lemma match_loop_r_exact s fuel st :
  match_loop_r Z.sub Z.succ s fuel st = match_loop s fuel st.
Proof.
  revert st. induction fuel as [|fuel IH]; intros st; [reflexivity|].
  simpl. change (match_step_r Z.sub Z.succ s st) with (match_step s st).
  destruct (match_step s st); reflexivity || apply IH.
Qed.

Lemma canFOKfill_scan_r_exact o levels acc :
  canFOKfill_scan_r Z.add o levels acc = canFOKfill_scan o levels acc.
Proof.
  revert acc. induction levels as [|[k q] m IH]; intros acc; [reflexivity|].
  simpl. rewrite !IH. reflexivity.
Qed.

Lemma processOrder_r_exact b o tid :
  processOrder_r Z.add Z.sub Z.succ b o tid = processOrder b o tid.
Proof.
  unfold processOrder_r, processOrder, canFOKfill_r, canFOKfill,
    matchBuyOrder_r, matchBuyOrder, matchSellOrder_r, matchSellOrder.
  rewrite !canFOKfill_scan_r_exact, !match_loop_r_exact. reflexivity.
Qed.

Lemma double_sub_diag a : double_sub a a = 0.
Proof. unfold double_sub. rewrite Z.sub_diag. reflexivity. Qed.

Section RoundedProperties.

Variable dadd dsub : Z -> Z -> Z.
Variable int_succ : Z -> Z.

(** All that is asked of the subtraction: a number less itself is zero. *)
Hypothesis dsub_diag : forall a, dsub a a = 0.

Lemma reduceQuantity_r_id o amount :
  getOrderID (reduceQuantity_r dsub o amount) = getOrderID o.
Proof. unfold reduceQuantity_r. now destruct (amount <=? getQuantity o). Qed.

(** A completed run of the body: the resting order is used up and popped,
    or the taker is left with nothing. *)
Lemma match_step_r_next s st st1 :
  match_step_r dsub int_succ s st = LoopNext st1 ->
  exists key resting queue_tail others,
    opposite st = (key, resting :: queue_tail) :: others
    /\ 0 < getQuantity (taker st)
    /\ trades st1 = trades st ++
         [{| tradeID := next_trade_id st;
             makerOrderID := getOrderID resting;
             takerOrderID := getOrderID (taker st);
             price := getPrice resting;
             quantity := Z.min (getQuantity (taker st)) (getQuantity resting);
             aggressorSide := s;
             symbol := getSymbol resting |}]
    /\ next_trade_id st1 = int_succ (next_trade_id st)
    /\ taker st1 = reduceQuantity_r dsub (taker st)
                     (Z.min (getQuantity (taker st)) (getQuantity resting))
    /\ ((getQuantity resting <= getQuantity (taker st)
         /\ opposite st1 = match queue_tail with
                           | [] => others
                           | _ :: _ => (key, queue_tail) :: others
                           end)
        \/ (getQuantity (taker st) < getQuantity resting
            /\ getQuantity (taker st1) = 0)).
Proof.
  unfold match_step_r. intros H.
  destruct (0 <? getQuantity (taker st)) eqn:Hq; simpl in H; [|discriminate].
  destruct (opposite st) as [|[key queue] others]; [discriminate|].
  destruct queue as [|resting queue_tail]; [discriminate|].
  destruct (OrderType_eqb (getType (taker st)) Limit
            && price_worse s (getPrice (taker st)) (getPrice resting));
    [discriminate|].
  injection H as <-. bool_to_Z.
  exists key, resting, queue_tail, others. simpl.
  repeat (split; [reflexivity || assumption|]).
  destruct (Z.le_gt_cases (getQuantity resting) (getQuantity (taker st))) as [Hle|Hlt].
  - left. split; [assumption|].
    rewrite Z.min_r by assumption.
    assert (Hres : getQuantity (reduceQuantity_r dsub resting (getQuantity resting)) = 0).
    { unfold reduceQuantity_r.
      rewrite Z.leb_refl, getQuantity_setQuantity. apply dsub_diag. }
    rewrite Hres. reflexivity.
  - right. split; [assumption|].
    rewrite Z.min_l by lia. unfold reduceQuantity_r.
    rewrite Z.leb_refl, getQuantity_setQuantity. apply dsub_diag.
Qed.

Lemma match_step_r_no_quantity s st :
  getQuantity (taker st) <= 0 -> match_step_r dsub int_succ s st = LoopExit.
Proof.
  intros H. unfold match_step_r.
  destruct (Z.ltb_spec 0 (getQuantity (taker st))); [lia|reflexivity].
Qed.

Lemma match_step_r_undefined s st :
  match_step_r dsub int_succ s st = LoopUndefined ->
  exists key others, opposite st = (key, []) :: others.
Proof.
  unfold match_step_r. intros H.
  destruct (0 <? getQuantity (taker st)); simpl in H; [|discriminate].
  destruct (opposite st) as [|[key queue] others]; [discriminate|].
  destruct queue as [|resting queue_tail]; [eauto|].
  destruct (OrderType_eqb (getType (taker st)) Limit
            && price_worse s (getPrice (taker st)) (getPrice resting)); discriminate.
Qed.

Lemma match_loop_r_enough_fuel s fuel st :
  queues_nonempty (opposite st) ->
  ((if (0 <? getQuantity (taker st))%Z then S (order_count (opposite st)) else 1)
   <= fuel)%nat ->
  exists st', match_loop_r dsub int_succ s fuel st = Some st'.
Proof.
  revert st. induction fuel as [|fuel IH]; intros st Hne Hfuel.
  { destruct (0 <? getQuantity (taker st)); lia. }
  simpl. destruct (match_step_r dsub int_succ s st) as [| |st1] eqn:Hstep.
  - eauto.
  - apply match_step_r_undefined in Hstep as (key & others & Hopp).
    rewrite Hopp in Hne. inversion Hne as [|? ? Hhd _]. now elim Hhd.
  - apply match_step_r_next in Hstep
      as (key & resting & queue_tail & others & Hopp & Hq & _ & _ & _ & Hcase).
    rewrite Hopp in Hne, Hfuel. inversion Hne as [|? ? _ Hothers]; subst.
    destruct (Z.ltb_spec 0 (getQuantity (taker st))) as [_|]; [|lia].
    rewrite order_count_cons in Hfuel. cbn [length] in Hfuel.
    destruct Hcase as [[_ Hopp1]|[_ Hzero]].
    + apply IH.
      * rewrite Hopp1. destruct queue_tail; [assumption|].
        constructor; [discriminate|assumption].
      * rewrite Hopp1. destruct (0 <? getQuantity (taker st1)); [|lia].
        destruct queue_tail; rewrite ?order_count_cons; cbn [length] in *; lia.
    + destruct fuel as [|fuel]; [lia|]. simpl.
      rewrite match_step_r_no_quantity by lia. eauto.
Qed.

Lemma match_loop_r_run s fuel st st' :
  match_loop_r dsub int_succ s fuel st = Some st' ->
  loop_run_r dsub int_succ s st st'.
Proof.
  revert st. induction fuel as [|fuel IH]; intros st H; simpl in H; [discriminate|].
  destruct (match_step_r dsub int_succ s st) as [| |st1] eqn:Hstep; [|discriminate|].
  - injection H as <-. now apply run_r_exit.
  - eapply run_r_next; eauto.
Qed.

Lemma loop_run_r_no_quantity s st st' :
  loop_run_r dsub int_succ s st st' -> getQuantity (taker st) <= 0 -> st' = st.
Proof.
  intros Hrun Hq. destruct Hrun as [st Hexit|st st1 st' Hstep _]; [reflexivity|].
  rewrite match_step_r_no_quantity in Hstep by assumption. discriminate.
Qed.

(** The trades of a run against the opposite side as the run found it,
    with the taker's remainder obtained by [reduceQuantity] and the
    identifiers by [++]. *)
Lemma loop_run_r_trades s st st' :
  loop_run_r dsub int_succ s st st' ->
  exists new,
    trades st' = trades st ++ new
    /\ taker st' = fold_left (fun ord tr => reduceQuantity_r dsub ord (quantity tr))
                     new (taker st)
    /\ next_trade_id st' = Nat.iter (length new) int_succ (next_trade_id st)
    /\ forall k t,
         nth_error new k = Some t ->
         tradeID t = Nat.iter k int_succ (next_trade_id st)
         /\ exists m,
              nth_error (priority_order (opposite st)) k = Some m
              /\ makerOrderID t = getOrderID m
              /\ takerOrderID t = getOrderID (taker st)
              /\ price t = getPrice m
              /\ quantity t
                 = Z.min (remaining_after dsub (taker st) (firstn k new))
                         (getQuantity m).
Proof.
  induction 1 as [st _|st st1 st' Hstep Hrun IH].
  - exists []. rewrite app_nil_r.
    split; [reflexivity|]. split; [reflexivity|]. split; [reflexivity|].
    intros [|k] t Hk; discriminate.
  - destruct IH as (new1 & Htr & Htk & Hid & Hnth).
    apply match_step_r_next in Hstep
      as (key & resting & queue_tail & others & Hopp & Hq & Ht0 & Hid1 & Htaker & Hcase).
    set (t0 := {| tradeID := next_trade_id st;
                  makerOrderID := getOrderID resting;
                  takerOrderID := getOrderID (taker st);
                  price := getPrice resting;
                  quantity := Z.min (getQuantity (taker st)) (getQuantity resting);
                  aggressorSide := s;
                  symbol := getSymbol resting |}) in *.
    change (Z.min (getQuantity (taker st)) (getQuantity resting))
      with (quantity t0) in Htaker.
    assert (Hlast : getQuantity (taker st) < getQuantity resting -> new1 = []).
    { intros Hlt. destruct Hcase as [[Hle _]|[_ Hzero]]; [lia|].
      assert (st' = st1) as ->
        by (eapply loop_run_r_no_quantity; [eassumption|lia]).
      apply (app_inv_head (trades st1)). now rewrite app_nil_r. }
    exists (t0 :: new1).
    split; [rewrite Htr, Ht0, <- app_assoc; reflexivity|].
    split; [cbn [fold_left]; rewrite <- Htaker; exact Htk|].
    split.
    { cbn [length]. rewrite Hid, Hid1. clear.
      induction (length new1) as [|n IHn]; [reflexivity|].
      simpl. now rewrite IHn. }
    intros [|k] t Hk.
    + injection Hk as <-. split; [reflexivity|].
      exists resting. rewrite Hopp. repeat split.
    + simpl in Hk. destruct (Hnth k t Hk)
        as (Htid & m & Hm & Hmaker & Htaker' & Hprice & Hqty).
      split.
      { rewrite Htid, Hid1. clear.
        induction k as [|k IHk]; [reflexivity|]. simpl. now rewrite IHk. }
      exists m.
      destruct Hcase as [[_ Hopp1]|[Hlt _]];
        [|rewrite (Hlast Hlt) in Hk; destruct k; discriminate].
      split.
      { rewrite Hopp, priority_order_cons. simpl.
        rewrite Hopp1 in Hm. now destruct queue_tail. }
      split; [assumption|].
      split; [rewrite Htaker', Htaker; apply reduceQuantity_r_id|].
      split; [assumption|].
      rewrite Hqty. unfold remaining_after. cbn [firstn fold_left].
      now rewrite <- Htaker.
Qed.

Lemma processOrder_r_cases b o tid ts o' b' tid' :
  processOrder_r dadd dsub int_succ b o tid = Some (ts, o', b', tid') ->
  (ts = [] /\ o' = o /\ b' = b /\ tid' = tid)
  \/ exists st',
       match_loop_r dsub int_succ (getSide o) (S (order_count (opp_side (getSide o) b)))
         (start_state b o tid) = Some st'
       /\ ts = trades st' /\ o' = taker st' /\ tid' = next_trade_id st'.
Proof.
  unfold processOrder_r. intros H.
  destruct (OrderType_eqb (getType o) FOK && negb (canFOKfill_r dadd b o)).
  { left. injection H as <- <- <- <-. repeat split. }
  right. unfold matchBuyOrder_r, matchSellOrder_r, start_state in *.
  destruct (getSide o); simpl opp_side;
    match type of H with
    | context [match_loop_r ?d ?i ?s ?f ?st] =>
        destruct (match_loop_r d i s f st) as [st'|] eqn:Hloop; [|discriminate]
    end;
    injection H as <- <- <- <-; exists st'; repeat split; reflexivity.
Qed.

Lemma processOrder_r_total b o tid :
  queues_nonempty (opp_side (getSide o) b) ->
  exists ts o' b' tid',
    processOrder_r dadd dsub int_succ b o tid = Some (ts, o', b', tid').
Proof.
  intros Hne. unfold processOrder_r.
  destruct (OrderType_eqb (getType o) FOK && negb (canFOKfill_r dadd b o)); [eauto|].
  unfold matchBuyOrder_r, matchSellOrder_r.
  destruct (getSide o); simpl in Hne;
    match goal with
    | |- context [match_loop_r ?d ?i ?s (S (order_count ?m)) ?st] =>
        destruct (match_loop_r_enough_fuel s (S (order_count m)) st) as [st' ->];
          [assumption
          |simpl; destruct (0 <? getQuantity o); lia
          |eauto]
    end.
Qed.

Lemma processOrder_r_trades b o tid ts o' b' tid' :
  processOrder_r dadd dsub int_succ b o tid = Some (ts, o', b', tid') ->
  o' = fold_left (fun ord tr => reduceQuantity_r dsub ord (quantity tr)) ts o
  /\ tid' = Nat.iter (length ts) int_succ tid
  /\ forall k t,
       nth_error ts k = Some t ->
       tradeID t = Nat.iter k int_succ tid
       /\ exists m,
            nth_error (priority_order (opp_side (getSide o) b)) k = Some m
            /\ makerOrderID t = getOrderID m
            /\ takerOrderID t = getOrderID o
            /\ price t = getPrice m
            /\ quantity t
               = Z.min (remaining_after dsub o (firstn k ts)) (getQuantity m).
Proof.
  intros Hp.
  apply processOrder_r_cases in Hp
    as [(-> & -> & _ & ->)|(st' & Hloop & -> & -> & ->)].
  { split; [reflexivity|]. split; [reflexivity|].
    intros [|k] t Hk; discriminate. }
  apply match_loop_r_run, loop_run_r_trades in Hloop
    as (new & Htr & Htk & Hid & Hnth).
  unfold start_state in Htr, Htk, Hid, Hnth.
  cbn [trades taker next_trade_id opposite app] in Htr, Htk, Hid, Hnth.
  subst new. split; [assumption|]. split; assumption.
Qed.

End RoundedProperties.

(** ** No empty queue, whatever the arithmetic *)

Section RoundedInvariant.

Variable dadd dsub : Z -> Z -> Z.
Variable int_succ : Z -> Z.
Variable to_string : Z -> string.
Variable dump : json -> string.

Lemma PriceMap_push_nonempty s m k o :
  queues_nonempty m -> queues_nonempty (PriceMap_push s m k o).
Proof.
  unfold queues_nonempty. induction m as [|[k0 q0] m IH]; intros H; simpl.
  - constructor; [discriminate|constructor].
  - inversion H as [|? ? Hq Hm]; subst.
    destruct (key_before s k k0).
    { constructor; [discriminate|assumption]. }
    destruct (key_before s k0 k).
    + constructor; [assumption|now apply IH].
    + constructor; [|assumption]. simpl. now destruct q0.
Qed.

Lemma match_step_r_nonempty s st st1 :
  match_step_r dsub int_succ s st = LoopNext st1 ->
  queues_nonempty (opposite st) -> queues_nonempty (opposite st1).
Proof.
  unfold match_step_r, queues_nonempty. intros H Hne.
  destruct (0 <? getQuantity (taker st)); simpl in H; [|discriminate].
  destruct (opposite st) as [|[key queue] others]; [discriminate|].
  destruct queue as [|resting queue_tail]; [discriminate|].
  destruct (OrderType_eqb (getType (taker st)) Limit
            && price_worse s (getPrice (taker st)) (getPrice resting));
    [discriminate|].
  injection H as <-. cbn [opposite].
  inversion Hne as [|? ? _ Hothers]; subst.
  destruct (getQuantity _ =? 0).
  - destruct queue_tail; [assumption|].
    constructor; [discriminate|assumption].
  - constructor; [discriminate|assumption].
Qed.

Lemma loop_run_r_nonempty s st st' :
  loop_run_r dsub int_succ s st st' ->
  queues_nonempty (opposite st) -> queues_nonempty (opposite st').
Proof.
  induction 1 as [st _|st st1 st' Hstep _ IH]; intros Hne; [assumption|].
  apply IH. eapply match_step_r_nonempty; eassumption.
Qed.

Lemma processOrder_r_nonempty b o tid ts o' b' tid' :
  processOrder_r dadd dsub int_succ b o tid = Some (ts, o', b', tid') ->
  queues_nonempty (asks_ b) /\ queues_nonempty (bids_ b) ->
  queues_nonempty (asks_ b') /\ queues_nonempty (bids_ b').
Proof.
  unfold processOrder_r. intros H [Ha Hb].
  destruct (OrderType_eqb (getType o) FOK && negb (canFOKfill_r dadd b o)).
  { injection H as _ _ <- _. now split. }
  assert (Hpush : forall b0 o0,
             queues_nonempty (asks_ b0) /\ queues_nonempty (bids_ b0) ->
             queues_nonempty (asks_ (addLimitOrder b0 o0))
             /\ queues_nonempty (bids_ (addLimitOrder b0 o0))).
  { intros b0 o0 [Ha0 Hb0]. unfold addLimitOrder.
    destruct (getSide o0); simpl; split;
      assumption || now apply PriceMap_push_nonempty. }
  unfold matchBuyOrder_r, matchSellOrder_r in H.
  destruct (getSide o).
  - destruct (match_loop_r dsub int_succ Buy _ _) as [st'|] eqn:Hloop; [|discriminate].
    injection H as _ _ <- _.
    apply match_loop_r_run, loop_run_r_nonempty in Hloop; [|exact Ha].
    destruct (_ && _); [apply Hpush|]; simpl; now split.
  - destruct (match_loop_r dsub int_succ Sell _ _) as [st'|] eqn:Hloop; [|discriminate].
    injection H as _ _ <- _.
    apply match_loop_r_run, loop_run_r_nonempty in Hloop; [|exact Hb].
    destruct (_ && _); [apply Hpush|]; simpl; now split.
Qed.

(** No book the code has produced holds an empty queue: [front()] is
    never called on one. *)
Lemma reachable_r_queues_nonempty b :
  reachable_r dadd dsub int_succ b ->
  queues_nonempty (asks_ b) /\ queues_nonempty (bids_ b).
Proof.
  induction 1 as [|b o tid ts o' b' tid' _ IH Hp].
  - split; constructor.
  - eapply processOrder_r_nonempty; eassumption.
Qed.

Lemma reachable_r_opp_nonempty b s :
  reachable_r dadd dsub int_succ b -> queues_nonempty (opp_side s b).
Proof.
  intros H. destruct (reachable_r_queues_nonempty b H). now destruct s.
Qed.

(** Every book of an engine the code has produced is such a book. *)
Lemma engine_reachable_r_books e :
  engine_reachable_r dadd dsub int_succ to_string dump e ->
  forall sym, reachable_r dadd dsub int_succ (book_of e sym).
Proof.
  induction 1 as [|e o tid evs o' e' tid' _ IH Hp]; intros sym.
  - apply reachable_r_empty.
  - unfold process_r in Hp.
    destruct (processOrder_r dadd dsub int_succ (book_of e (getSymbol o)) o tid)
      as [[[[ts o1] b1] tid1]|] eqn:Hpo; [|discriminate].
    injection Hp as _ _ <- _.
    destruct (decide (sym = getSymbol o)) as [->|Hne].
    + rewrite book_of_insert. eapply reachable_r_process; [apply IH|eassumption].
    + unfold book_of. simpl. rewrite lookup_insert_ne by congruence. apply IH.
Qed.

End RoundedInvariant.

Lemma queues_nonempty_book_1_big : queues_nonempty (asks_ book_1_big).
Proof. repeat constructor; discriminate. Qed.

(** ** Price and quantity of a trade *)

(** C7.  Whatever [+], [-] and [++] compute, as long as a number less
    itself is zero: on a book with no empty queue on the side matched
    against (every book the code has produced is one,
    [reachable_r_queues_nonempty]), [processOrder] returns, and its
    [k]-th trade is made with the [k]-th resting order of that side in
    price-time order.  The trade carries that maker's identifier and the
    maker's price, whatever the price of the taker; and its quantity is
    the minimum of what is left of the taker at that moment -- its
    quantity once [reduceQuantity] has taken the earlier trades off --
    and the maker's remaining quantity, which is the quantity it rests
    with, a maker being matched at most once in a call. *)
Theorem trade_price_and_quantity dadd dsub int_succ b o tid :
  (forall a, dsub a a = 0) ->
  queues_nonempty (opp_side (getSide o) b) ->
  exists ts o' b' tid',
    processOrder_r dadd dsub int_succ b o tid = Some (ts, o', b', tid')
    /\ forall k t,
         nth_error ts k = Some t ->
         exists m,
           nth_error (priority_order (opp_side (getSide o) b)) k = Some m
           /\ makerOrderID t = getOrderID m
           /\ takerOrderID t = getOrderID o
           /\ price t = getPrice m
           /\ quantity t
              = Z.min (remaining_after dsub o (firstn k ts)) (getQuantity m).
Proof.
  intros Hdiag Hne.
  destruct (processOrder_r_total dadd dsub int_succ Hdiag b o tid Hne)
    as (ts & o' & b' & tid' & Hp).
  exists ts, o', b', tid'. split; [assumption|].
  intros k t Hk.
  destruct (processOrder_r_trades dadd dsub int_succ Hdiag _ _ _ _ _ _ _ Hp)
    as (_ & _ & Hnth).
  destruct (Hnth k t Hk) as (_ & Hm). exact Hm.
Qed.

Lemma trade_price_and_quantity_witness :
  (forall a, double_sub a a = 0)
  /\ queues_nonempty (asks_ book_1_big)
  /\ exists ts o' b' tid',
       processOrder_r double_add double_sub int32_succ
         book_1_big (ord 3 Market Buy (2 ^ 53 + 2) 0) 1
       = Some (ts, o', b', tid')
       /\ forall k t,
            nth_error ts k = Some t ->
            exists m,
              nth_error (priority_order (asks_ book_1_big)) k = Some m
              /\ makerOrderID t = getOrderID m
              /\ takerOrderID t = 3
              /\ price t = getPrice m
              /\ quantity t
                 = Z.min (remaining_after double_sub
                            (ord 3 Market Buy (2 ^ 53 + 2) 0) (firstn k ts))
                         (getQuantity m).
Proof.
  split; [exact double_sub_diag|]. split; [exact queues_nonempty_book_1_big|].
  exact (trade_price_and_quantity double_add double_sub int32_succ
           book_1_big (ord 3 Market Buy (2 ^ 53 + 2) 0) 1
           double_sub_diag queues_nonempty_book_1_big).
Defined.

(** With [double] arithmetic: asks of 1 and 2^53+2 at one price, a Market
    buy of 2^53+2.  After the first trade the taker is left with 2^53,
    the nearest [double] to 2^53+1, and that is the second trade. *)
Example rounded_remainder_is_traded :
  processOrder_r double_add double_sub int32_succ
    book_1_big (ord 3 Market Buy (2 ^ 53 + 2) 0) 1
  = Some ([mkTrade 1 1 3 100 1 Buy "BTC-USDT";
           mkTrade 2 2 3 100 (2 ^ 53) Buy "BTC-USDT"],
          ord 3 Market Buy 0 0,
          {| asks_ := [(100, [ord 2 Limit Sell 2 100])]; bids_ := [] |}, 3).
Proof. vm_compute. reflexivity. Qed.

(** ** Trade identifiers *)

(** X1.  Whatever [+], [-] and [++] compute, as long as a number less
    itself is zero: on a book with no empty queue on the side matched
    against (every book the code has produced is one,
    [reachable_r_queues_nonempty]), [processOrder] returns, its [k]-th
    trade carries the value the trade counter takes after [k] increments
    from its value before the call, and the counter afterwards has been
    incremented once per trade. *)
Theorem trade_ids_consecutive dadd dsub int_succ b o tid :
  (forall a, dsub a a = 0) ->
  queues_nonempty (opp_side (getSide o) b) ->
  exists ts o' b' tid',
    processOrder_r dadd dsub int_succ b o tid = Some (ts, o', b', tid')
    /\ tid' = Nat.iter (length ts) int_succ tid
    /\ forall k t, nth_error ts k = Some t -> tradeID t = Nat.iter k int_succ tid.
Proof.
  intros Hdiag Hne.
  destruct (processOrder_r_total dadd dsub int_succ Hdiag b o tid Hne)
    as (ts & o' & b' & tid' & Hp).
  exists ts, o', b', tid'. split; [assumption|].
  destruct (processOrder_r_trades dadd dsub int_succ Hdiag _ _ _ _ _ _ _ Hp)
    as (_ & Hid & Hnth).
  split; [assumption|]. intros k t Hk. now destruct (Hnth k t Hk).
Qed.

Lemma trade_ids_consecutive_witness :
  (forall a, double_sub a a = 0)
  /\ queues_nonempty (asks_ book_1_big)
  /\ exists ts o' b' tid',
       processOrder_r double_add double_sub int32_succ
         book_1_big (ord 3 Market Buy 5 0) INT_MAX
       = Some (ts, o', b', tid')
       /\ tid' = Nat.iter (length ts) int32_succ INT_MAX
       /\ forall k t, nth_error ts k = Some t ->
                      tradeID t = Nat.iter k int32_succ INT_MAX.
Proof.
  split; [exact double_sub_diag|]. split; [exact queues_nonempty_book_1_big|].
  exact (trade_ids_consecutive double_add double_sub int32_succ
           book_1_big (ord 3 Market Buy 5 0) INT_MAX
           double_sub_diag queues_nonempty_book_1_big).
Defined.

(** ** Fill-or-kill under rounding *)

Lemma reachable_book_big_3 :
  reachable_r double_add double_sub int32_succ book_big_3.
Proof.
  apply (reachable_r_process double_add double_sub int32_succ
           {| asks_ := [(100, [ord 1 Limit Sell (2 ^ 53) 100])]; bids_ := [] |}
           (ord 2 Limit Sell 3 101) 1 [] (ord 2 Limit Sell 3 101) book_big_3 1);
    [|vm_compute; reflexivity].
  apply (reachable_r_process double_add double_sub int32_succ empty_book
           (ord 1 Limit Sell (2 ^ 53) 100) 1 [] (ord 1 Limit Sell (2 ^ 53) 100) _ 1);
    [|vm_compute; reflexivity].
  apply reachable_r_empty.
Qed.

(** C3 at a failing input.  Asks of 2^53 at 100 and 3 at 101, built by
    two Limit sells; a FOK buy of 2^53+4 at 101.  The asks hold 2^53+3,
    less than the order, but [canFOKfill] adds them up in [double], where
    2^53 + 3 is 2^53+4, and lets the order through.  The loop then trades
    2^53 and 3, empties the asks and leaves the order with 1, which is
    dropped: trades were made, the book changed, and the trades do not
    add up to the quantity of the order. *)
Theorem fok_partial_fill_after_rounding :
  reachable_r double_add double_sub int32_succ book_big_3
  /\ side_total (asks_ book_big_3) = 2 ^ 53 + 3
  /\ 2 ^ 53 + 3 < getQuantity (ord 3 FOK Buy (2 ^ 53 + 4) 101)
  /\ level_quantity_r double_add (level_quantity_r double_add 0
       [ord 1 Limit Sell (2 ^ 53) 100]) [ord 2 Limit Sell 3 101] = 2 ^ 53 + 4
  /\ canFOKfill_r double_add book_big_3 (ord 3 FOK Buy (2 ^ 53 + 4) 101) = true
  /\ processOrder_r double_add double_sub int32_succ
       book_big_3 (ord 3 FOK Buy (2 ^ 53 + 4) 101) 1
     = Some ([mkTrade 1 1 3 100 (2 ^ 53) Buy "BTC-USDT";
              mkTrade 2 2 3 101 3 Buy "BTC-USDT"],
             ord 3 FOK Buy 1 101, empty_book, 3).
Proof.
  split; [exact reachable_book_big_3|]. repeat split; vm_compute; reflexivity.
Qed.

(** ** Depth and depth events *)

Section RoundedEngine.

Variable dadd dsub : Z -> Z -> Z.
Variable int_succ : Z -> Z.
Variable to_string : Z -> string.
Variable dump : json -> string.

Hypothesis dsub_diag : forall a, dsub a a = 0.

Lemma depth_rows_r_firstn n count levels :
  depth_rows_r dadd to_string n count levels
  = map (level_row_r dadd to_string) (firstn (Z.to_nat (n - count)) levels).
Proof.
  revert count. induction levels as [|[p q] levels IH]; intros count; simpl.
  - now rewrite firstn_nil.
  - destruct (Z.leb_spec n count) as [Hle|Hgt].
    + replace (Z.to_nat (n - count)) with O by lia. reflexivity.
    + replace (Z.to_nat (n - count)) with (S (Z.to_nat (n - (count + 1)))) by lia.
      cbn [firstn map]. rewrite IH. reflexivity.
Qed.

Lemma getBookDepthAsJson_r_firstn b n side :
  getBookDepthAsJson_r dadd to_string b n side
  = JArray (map (level_row_r dadd to_string) (firstn (Z.to_nat n) (own_side side b))).
Proof.
  unfold getBookDepthAsJson_r.
  destruct side; simpl; rewrite depth_rows_r_firstn, Z.sub_0_r; reflexivity.
Qed.

(** C5.  Whatever [+], [-] and [++] compute, as long as a number less
    itself is zero: when the book of the order's symbol has no empty
    queue on the side matched against (as in every engine the code has
    produced, [engine_reachable_r_books]), [process] returns, and the book it
    then holds for that symbol is the one [processOrder] made of the old
    one.  Among the events it broadcasts there is a depth ([l2update])
    event exactly when the dumped top-10 ask depth or the dumped top-10
    bid depth of that book -- a row of formatted price and accumulated
    quantity for each of the first ten levels -- differs from the one of
    the old book, and there is never more than one: the events are the
    trades of [processOrder], then that depth event, if any, showing the
    new book. *)
Theorem depth_event_iff_serialization_changed e o tid :
  queues_nonempty (opp_side (getSide o) (book_of e (getSymbol o))) ->
  exists evs o' e' tid' ts,
    process_r dadd dsub int_succ to_string dump e o tid = Some (evs, o', e', tid')
    /\ processOrder_r dadd dsub int_succ (book_of e (getSymbol o)) o tid
       = Some (ts, o', book_of e' (getSymbol o), tid')
    /\ (length (List.filter is_market_data evs) <= 1)%nat
    /\ ((exists ev, In ev evs /\ is_market_data ev = true)
        <-> (top10_text dadd to_string dump (book_of e (getSymbol o)) Sell
             <> top10_text dadd to_string dump (book_of e' (getSymbol o)) Sell
             \/ top10_text dadd to_string dump (book_of e (getSymbol o)) Buy
                <> top10_text dadd to_string dump (book_of e' (getSymbol o)) Buy))
    /\ (evs = map TradeEvent ts
        \/ evs = map TradeEvent ts
                 ++ [MarketDataEvent (getSymbol o)
                       (getBBO (book_of e' (getSymbol o)))
                       (JArray (map (level_row_r dadd to_string)
                                  (firstn 10 (bids_ (book_of e' (getSymbol o))))))
                       (JArray (map (level_row_r dadd to_string)
                                  (firstn 10 (asks_ (book_of e' (getSymbol o))))))]).
Proof.
  intros Hne.
  destruct (processOrder_r_total dadd dsub int_succ dsub_diag _ o tid Hne)
    as (ts & o' & b' & tid' & Hp).
  unfold process_r. rewrite Hp.
  eexists _, o', _, tid', ts. split; [reflexivity|].
  rewrite book_of_insert. split; [reflexivity|].
  unfold broadcast_market_data_r, top10_text.
  rewrite !getBookDepthAsJson_r_firstn.
  change (Z.to_nat 10) with 10%nat. cbn [own_side].
  set (old_asks := dump (JArray (map (level_row_r dadd to_string)
                                   (firstn 10 (asks_ (book_of e (getSymbol o))))))).
  set (old_bids := dump (JArray (map (level_row_r dadd to_string)
                                   (firstn 10 (bids_ (book_of e (getSymbol o))))))).
  set (new_asks := dump (JArray (map (level_row_r dadd to_string)
                                   (firstn 10 (asks_ b'))))).
  set (new_bids := dump (JArray (map (level_row_r dadd to_string)
                                   (firstn 10 (bids_ b'))))).
  assert (Hts : match ts with [] => [] | _ :: _ => broadcast_trades ts end
                = map TradeEvent ts) by now destruct ts.
  rewrite Hts.
  assert (Htrades : List.filter is_market_data (map TradeEvent ts) = [])
    by apply filter_trade_events.
  assert (Hchanged :
            negb (String.eqb old_asks new_asks) || negb (String.eqb old_bids new_bids)
            = true
            <-> old_asks <> new_asks \/ old_bids <> new_bids).
  { rewrite orb_true_iff, !negb_true_iff, !String.eqb_neq. reflexivity. }
  destruct (negb (String.eqb old_asks new_asks)
            || negb (String.eqb old_bids new_bids)) eqn:Hdiff.
  - split; [rewrite List.filter_app, Htrades; simpl; lia|].
    split; [|now right].
    split; [intros _; now apply Hchanged|].
    intros _. eexists. split; [apply in_or_app; right; left; reflexivity|].
    reflexivity.
  - rewrite app_nil_r. split; [rewrite Htrades; simpl; lia|].
    split; [|now left].
    split.
    + intros (ev & Hin & Hev).
      assert (Hf : In ev (List.filter is_market_data (map TradeEvent ts)))
        by (apply List.filter_In; split; assumption).
      rewrite Htrades in Hf. destruct Hf.
    + intros Hch. apply Hchanged in Hch. discriminate.
Qed.

(** X8.  Whatever [+] computes, [getBookDepthAsJson] returns one row for
    each of the first [n] levels of the requested side in book order --
    every level when there are fewer than [n], none when [n] is zero or
    negative -- and a row holds the formatted price of its level and the
    formatted result of adding up, from the front of the queue to its
    back, the remaining quantities of the orders queued there. *)
Theorem depth_is_first_n_levels b n side :
  getBookDepthAsJson_r dadd to_string b n side
  = JArray (map (fun lv =>
                   JArray [JString (to_string (fst lv));
                           JString (to_string
                                      (fold_left (fun total r => dadd total (getQuantity r))
                                                 (snd lv) 0))])
                (firstn (Z.to_nat n) (own_side side b))).
Proof. exact (getBookDepthAsJson_r_firstn b n side). Qed.

End RoundedEngine.

Lemma depth_event_iff_serialization_changed_witness :
  (forall a, double_sub a a = 0)
  /\ queues_nonempty (opp_side Buy (book_of engine_one_ask "BTC-USDT"))
  /\ exists evs o' e' tid' ts,
       process_r double_add double_sub int32_succ to_string_integral dump_compact
         engine_one_ask (ord 2 Limit Buy 5 100) 1
       = Some (evs, o', e', tid')
       /\ processOrder_r double_add double_sub int32_succ
            (book_of engine_one_ask "BTC-USDT") (ord 2 Limit Buy 5 100) 1
          = Some (ts, o', book_of e' "BTC-USDT", tid')
       /\ (length (List.filter is_market_data evs) <= 1)%nat
       /\ ((exists ev, In ev evs /\ is_market_data ev = true)
           <-> (top10_text double_add to_string_integral dump_compact
                  (book_of engine_one_ask "BTC-USDT") Sell
                <> top10_text double_add to_string_integral dump_compact
                     (book_of e' "BTC-USDT") Sell
                \/ top10_text double_add to_string_integral dump_compact
                     (book_of engine_one_ask "BTC-USDT") Buy
                   <> top10_text double_add to_string_integral dump_compact
                        (book_of e' "BTC-USDT") Buy))
       /\ (evs = map TradeEvent ts
           \/ evs = map TradeEvent ts
                    ++ [MarketDataEvent "BTC-USDT"
                          (getBBO (book_of e' "BTC-USDT"))
                          (JArray (map (level_row_r double_add to_string_integral)
                                     (firstn 10 (bids_ (book_of e' "BTC-USDT")))))
                          (JArray (map (level_row_r double_add to_string_integral)
                                     (firstn 10 (asks_ (book_of e' "BTC-USDT")))))]).
Proof.
  assert (Hne : queues_nonempty (opp_side Buy (book_of engine_one_ask "BTC-USDT")))
    by (vm_compute; repeat constructor; discriminate).
  split; [exact double_sub_diag|]. split; [exact Hne|].
  exact (depth_event_iff_serialization_changed double_add double_sub int32_succ
           to_string_integral dump_compact double_sub_diag
           engine_one_ask (ord 2 Limit Buy 5 100) 1 Hne).
Defined.

(** The engine run with [double] arithmetic on that input: the buy takes
    the 3 resting at 100 and rests with 2; one trade event, then one
    depth event showing the new book. *)
Example engine_events_after_a_cross :
  option_map (fun r => fst (fst (fst r)))
    (process_r double_add double_sub int32_succ to_string_integral dump_compact
       engine_one_ask (ord 2 Limit Buy 5 100) 1)
  = Some [TradeEvent (mkTrade 1 1 2 100 3 Buy "BTC-USDT");
          MarketDataEvent "BTC-USDT" None
            (JArray [JArray [JString "100.000000"; JString "2.000000"]])
            (JArray [])].
Proof. vm_compute. reflexivity. Qed.

(** * Within 53 bits the code computes exactly *)

Lemma round53_exact z : - 2 ^ 53 <= z <= 2 ^ 53 -> round53 z = z.
Proof.
  intros H. unfold round53.
  destruct (Z.ltb_spec (Z.abs z) (2 ^ 53)) as [|Hge]; [reflexivity|].
  assert (z = 2 ^ 53 \/ z = - 2 ^ 53) as [-> | ->] by lia;
    vm_compute; reflexivity.
Qed.

Lemma double_sub_exact a b :
  0 <= b <= a -> a <= 2 ^ 53 -> double_sub a b = a - b.
Proof. intros. unfold double_sub. apply round53_exact. lia. Qed.

Lemma double_add_exact a b :
  0 <= a -> 0 <= b -> a + b <= 2 ^ 53 -> double_add a b = a + b.
Proof. intros. unfold double_add. apply round53_exact. lia. Qed.

Lemma total_bounds_each (l : list Order) r :
  Forall (fun x => 0 < getQuantity x) l ->
  In r l ->
  getQuantity r <= fold_right (fun o a => getQuantity o + a) 0 l.
Proof.
  induction 1 as [|x l Hx Hl IH]; intros Hin; [destruct Hin|].
  assert (0 <= fold_right (fun o a => getQuantity o + a) 0 l).
  { clear IH Hin. induction Hl as [|y l Hy _ IHl]; simpl; lia. }
  simpl. destruct Hin as [->|Hin]; [lia|]. specialize (IH Hin). lia.
Qed.

Lemma side_ok_positive s m :
  side_ok s m -> Forall (fun x => 0 < getQuantity x) (priority_order m).
Proof.
  intros Hok. apply List.Forall_forall. intros r Hr.
  destruct (side_ok_resting _ _ _ Hok Hr) as (k & q & _ & _ & Hq & _).
  exact Hq.
Qed.

Section Within53.

Variable dadd dsub : Z -> Z -> Z.
Variable int_succ : Z -> Z.

(** What is asked of [+] and [-]: to be exact on quantities that are not
    negative, up to 53 bits. *)
Hypothesis dsub_exact :
  forall a b, 0 <= b <= a -> a <= 2 ^ 53 -> dsub a b = a - b.
Hypothesis dadd_exact :
  forall a b, 0 <= a -> 0 <= b -> a + b <= 2 ^ 53 -> dadd a b = a + b.

Lemma level_quantity_r_within s k acc q :
  0 <= acc ->
  Forall (resting_ok s k) q ->
  acc + fold_right (fun o a => getQuantity o + a) 0 q <= 2 ^ 53 ->
  level_quantity_r dadd acc q = level_quantity acc q.
Proof.
  unfold level_quantity_r, level_quantity. intros Hacc Hall. revert acc Hacc.
  induction Hall as [|o q (_ & Ho & _) Hq IH]; intros acc Hacc Hle; [reflexivity|].
  pose proof (level_total_nonneg _ _ _ Hq).
  cbn [fold_left fold_right] in *. rewrite dadd_exact by lia. apply IH; lia.
Qed.

Lemma canFOKfill_scan_r_within s o levels acc :
  0 <= acc ->
  side_ok s levels ->
  acc + side_total levels <= 2 ^ 53 ->
  canFOKfill_scan_r dadd o levels acc = canFOKfill_scan o levels acc.
Proof.
  intros Hacc Hok. revert acc Hacc.
  induction levels as [|[k q] m IH]; intros acc Hacc Hle; [reflexivity|].
  pose proof (side_ok_tail _ _ _ Hok) as Hm.
  pose proof (side_total_nonneg _ _ Hm).
  rewrite side_total_level in Hle.
  destruct Hok as [_ Hl]. inversion Hl as [|? ? [_ Hall] _]; subst. cbn in Hall.
  pose proof (level_total_nonneg _ _ _ Hall).
  simpl.
  rewrite (level_quantity_r_within s k) by (assumption || lia).
  rewrite level_quantity_sum.
  rewrite (IH Hm acc), (IH Hm (acc + fold_right (fun o a => getQuantity o + a) 0 q))
    by lia.
  reflexivity.
Qed.

(** One run of the body, within 53 bits: the trade comes off the taker
    and off the opposite side, exactly. *)
Lemma match_step_r_within s st st1 :
  match_step_r dsub int_succ s st = LoopNext st1 ->
  getQuantity (taker st) <= 2 ^ 53 ->
  Forall (fun r => 0 < getQuantity r <= 2 ^ 53) (priority_order (opposite st)) ->
  exists t,
    trades st1 = trades st ++ [t]
    /\ taker st1 = setQuantity (taker st) (getQuantity (taker st) - quantity t)
    /\ 0 <= getQuantity (taker st1) <= 2 ^ 53
    /\ side_total (opposite st1) = side_total (opposite st) - quantity t
    /\ Forall (fun r => 0 < getQuantity r <= 2 ^ 53) (priority_order (opposite st1)).
Proof.
  unfold match_step_r. intros H Hq Hw.
  destruct (0 <? getQuantity (taker st)) eqn:Hpos; simpl in H; [|discriminate].
  apply Z.ltb_lt in Hpos.
  destruct (opposite st) as [|[key queue] others]; [discriminate|].
  destruct queue as [|resting queue_tail]; [discriminate|].
  destruct (OrderType_eqb (getType (taker st)) Limit
            && price_worse s (getPrice (taker st)) (getPrice resting));
    [discriminate|].
  rewrite priority_order_cons in Hw. cbn [app] in Hw.
  inversion Hw as [|? ? Hres Hrest]; subst.
  set (T := Z.min (getQuantity (taker st)) (getQuantity resting)) in *.
  assert (HT : 0 < T <= getQuantity (taker st) /\ T <= getQuantity resting)
    by (unfold T; lia).
  assert (Hr1 : reduceQuantity_r dsub resting T
                = setQuantity resting (getQuantity resting - T)).
  { unfold reduceQuantity_r. destruct (Z.leb_spec T (getQuantity resting)); [|lia].
    rewrite dsub_exact by lia. reflexivity. }
  assert (Hr2 : reduceQuantity_r dsub (taker st) T
                = setQuantity (taker st) (getQuantity (taker st) - T)).
  { unfold reduceQuantity_r. destruct (Z.leb_spec T (getQuantity (taker st))); [|lia].
    rewrite dsub_exact by lia. reflexivity. }
  rewrite Hr1, Hr2 in H. rewrite getQuantity_setQuantity in H.
  injection H as <-. cbn [trades taker opposite].
  eexists. split; [reflexivity|]. cbn [quantity].
  split; [reflexivity|]. rewrite getQuantity_setQuantity.
  split; [lia|].
  destruct (Z.eqb_spec (getQuantity resting - T) 0) as [Hz|Hnz].
  - destruct queue_tail as [|o queue_tail].
    + rewrite side_total_cons, side_total_nil_level. split; [lia|assumption].
    + rewrite (side_total_cons key resting). split; [lia|].
      rewrite priority_order_cons. assumption.
  - rewrite !side_total_cons, getQuantity_setQuantity. split; [lia|].
    rewrite priority_order_cons. cbn [app]. constructor; [|assumption].
    rewrite getQuantity_setQuantity. lia.
Qed.

Lemma loop_run_r_within s st st' :
  loop_run_r dsub int_succ s st st' ->
  getQuantity (taker st) <= 2 ^ 53 ->
  Forall (fun r => 0 < getQuantity r <= 2 ^ 53) (priority_order (opposite st)) ->
  exists new,
    trades st' = trades st ++ new
    /\ taker st' = setQuantity (taker st) (getQuantity (taker st) - trade_total new)
    /\ (0 <= getQuantity (taker st) -> 0 <= getQuantity (taker st'))
    /\ side_total (opposite st') = side_total (opposite st) - trade_total new.
Proof.
  induction 1 as [st _|st st1 st' Hstep _ IH]; intros Hq Hw.
  - exists []. rewrite app_nil_r. change (trade_total []) with 0.
    rewrite !Z.sub_0_r, setQuantity_same. repeat split. tauto.
  - destruct (match_step_r_within _ _ _ Hstep Hq Hw)
      as (t & Htr & Htk & Hq1 & Hside & Hw1).
    destruct (IH ltac:(lia) Hw1) as (new & Htr' & Htk' & Hnn & Hside').
    exists (t :: new). rewrite trade_total_cons.
    split; [rewrite Htr', Htr, <- app_assoc; reflexivity|].
    split.
    { rewrite Htk', Htk. rewrite getQuantity_setQuantity.
      unfold setQuantity. simpl. f_equal. lia. }
    split; [intros _; apply Hnn; lia|].
    rewrite Hside', Hside. lia.
Qed.

End Within53.

Section RoundedSides.

Variable dadd dsub : Z -> Z -> Z.
Variable int_succ : Z -> Z.

Lemma match_step_r_taker s st st1 :
  match_step_r dsub int_succ s st = LoopNext st1 ->
  taker st1 = setQuantity (taker st) (getQuantity (taker st1)).
Proof.
  unfold match_step_r. intros H.
  destruct (0 <? getQuantity (taker st)); simpl in H; [|discriminate].
  destruct (opposite st) as [|[key queue] others]; [discriminate|].
  destruct queue as [|resting queue_tail]; [discriminate|].
  destruct (OrderType_eqb (getType (taker st)) Limit
            && price_worse s (getPrice (taker st)) (getPrice resting));
    [discriminate|].
  injection H as <-. cbn [taker]. unfold reduceQuantity_r.
  destruct (_ <=? _); [reflexivity|symmetry; apply setQuantity_same].
Qed.

Lemma loop_run_r_taker s st st' :
  loop_run_r dsub int_succ s st st' ->
  taker st' = setQuantity (taker st) (getQuantity (taker st')).
Proof.
  induction 1 as [st _|st st1 st' Hstep _ IH]; [symmetry; apply setQuantity_same|].
  rewrite IH, (match_step_r_taker _ _ _ Hstep). reflexivity.
Qed.

Lemma loop_run_r_exit s st st' :
  loop_run_r dsub int_succ s st st' ->
  match_step_r dsub int_succ s st' = LoopExit.
Proof. induction 1; assumption. Qed.

Lemma match_step_r_exit s st :
  match_step_r dsub int_succ s st = LoopExit ->
  getQuantity (taker st) <= 0 \/ opposite st = [] \/ getType (taker st) = Limit.
Proof.
  unfold match_step_r. intros H.
  destruct (Z.ltb_spec 0 (getQuantity (taker st))); [|left; lia].
  simpl in H. right.
  destruct (opposite st) as [|[key queue] others]; [now left|].
  destruct queue as [|resting queue_tail]; [discriminate|].
  destruct (OrderType_eqb (getType (taker st)) Limit) eqn:Hty;
    [right; now apply OrderType_eqb_eq|discriminate].
Qed.

(** The two ways through [processOrder]: the FOK rejection, or the loop
    followed by the disposal of the residual. *)
Lemma processOrder_r_sides b o tid ts o' b' tid' :
  processOrder_r dadd dsub int_succ b o tid = Some (ts, o', b', tid') ->
  (getType o = FOK /\ canFOKfill_r dadd b o = false
   /\ ts = [] /\ o' = o /\ b' = b /\ tid' = tid)
  \/ exists st',
       (getType o = FOK -> canFOKfill_r dadd b o = true)
       /\ loop_run_r dsub int_succ (getSide o) (start_state b o tid) st'
       /\ ts = trades st' /\ o' = taker st' /\ tid' = next_trade_id st'
       /\ opp_side (getSide o) b' = opposite st'
       /\ own_side (getSide o) b'
          = if (0 <? getQuantity o') && OrderType_eqb (getType o') Limit
            then PriceMap_push (getSide o) (own_side (getSide o) b) (getPrice o') o'
            else own_side (getSide o) b.
Proof.
  unfold processOrder_r. intros H.
  destruct (OrderType_eqb (getType o) FOK && negb (canFOKfill_r dadd b o)) eqn:Hfok.
  { left. injection H as <- <- <- <-. bool_to_Z.
    repeat split; try assumption. now apply OrderType_eqb_eq. }
  right.
  assert (Hcan : getType o = FOK -> canFOKfill_r dadd b o = true).
  { intros Ht. rewrite Ht in Hfok. simpl in Hfok. now bool_to_Z. }
  unfold matchBuyOrder_r, matchSellOrder_r, start_state in *.
  destruct (getSide o) eqn:Hside; simpl opp_side; simpl own_side;
    match type of H with
    | context [match_loop_r ?d ?i ?s ?f ?st] =>
        destruct (match_loop_r d i s f st) as [st'|] eqn:Hloop; [|discriminate]
    end;
    injection H as <- <- <- <-; exists st';
    apply match_loop_r_run in Hloop;
    pose proof (loop_run_r_taker _ _ _ Hloop) as Htk;
    simpl in Htk;
    (assert (Hs' : getSide (taker st') = getSide o)
      by (rewrite Htk; reflexivity));
    rewrite Hside in Hs';
    (split; [assumption|]); (split; [assumption|]);
    repeat (split; [reflexivity|]);
    destruct ((0 <? getQuantity (taker st'))
              && OrderType_eqb (getType (taker st')) Limit);
    unfold addLimitOrder; rewrite ?Hs'; split; reflexivity.
Qed.

End RoundedSides.

Lemma within53_of_bound m :
  Forall (fun x => 0 < getQuantity x) (priority_order m) ->
  (forall r, In r (priority_order m) -> getQuantity r <= 2 ^ 53) ->
  Forall (fun r => 0 < getQuantity r <= 2 ^ 53) (priority_order m).
Proof.
  intros Hpos Hle. apply List.Forall_forall. intros r Hr.
  split; [|now apply Hle].
  now apply (proj1 (List.Forall_forall _ _) Hpos).
Qed.

(** ** Conservation of quantity *)

(** X2.  Run with [double] addition and subtraction and any counter: on
    a well-formed book (as every reachable book is), where the order and
    every order resting on the opposite side have at most 2^53 units,
    [processOrder] returns the order it was given with only the quantity
    changed; what the order lost is the sum of the trades, and the
    opposite side of the book lost the same amount of resting
    quantity. *)
Theorem quantity_conservation int_succ b o tid :
  book_ok b ->
  getQuantity o <= 2 ^ 53 ->
  (forall r, In r (priority_order (opp_side (getSide o) b)) ->
             getQuantity r <= 2 ^ 53) ->
  exists ts o' b' tid',
    processOrder_r double_add double_sub int_succ b o tid = Some (ts, o', b', tid')
    /\ o' = setQuantity o (getQuantity o - trade_total ts)
    /\ side_total (opp_side (getSide o) b')
       = side_total (opp_side (getSide o) b) - trade_total ts.
Proof.
  intros Hok Hq Hall.
  destruct (book_ok_sides (getSide o) b Hok) as [_ Hopp].
  destruct (processOrder_r_total double_add double_sub int_succ double_sub_diag
              b o tid (side_ok_queues_nonempty _ _ Hopp))
    as (ts & o' & b' & tid' & Hp).
  exists ts, o', b', tid'. split; [assumption|].
  apply processOrder_r_sides in Hp
    as [(_ & _ & -> & -> & -> & _)|(st' & _ & Hloop & -> & -> & _ & Hopp' & _)].
  { simpl. rewrite !Z.sub_0_r. split; [symmetry; apply setQuantity_same|reflexivity]. }
  destruct (loop_run_r_within double_sub int_succ double_sub_exact _ _ _ Hloop)
    as (new & Htr & Htk & _ & Hside).
  { exact Hq. }
  { apply within53_of_bound; [eapply side_ok_positive; eassumption|exact Hall]. }
  unfold start_state in Htr, Htk, Hside.
  cbn [trades taker opposite app] in Htr, Htk, Hside.
  subst new. rewrite Hopp', Hside. split; [assumption|reflexivity].
Qed.

Lemma quantity_conservation_witness :
  book_ok book_3_3
  /\ getQuantity (ord 3 Limit Buy 5 100) <= 2 ^ 53
  /\ (forall r, In r (priority_order (asks_ book_3_3)) -> getQuantity r <= 2 ^ 53)
  /\ exists ts o' b' tid',
       processOrder_r double_add double_sub int32_succ
         book_3_3 (ord 3 Limit Buy 5 100) 1 = Some (ts, o', b', tid')
       /\ o' = setQuantity (ord 3 Limit Buy 5 100) (5 - trade_total ts)
       /\ side_total (asks_ b') = side_total (asks_ book_3_3) - trade_total ts.
Proof.
  assert (Hq : getQuantity (ord 3 Limit Buy 5 100) <= 2 ^ 53)
    by (vm_compute; discriminate).
  assert (Hall : forall r, In r (priority_order (asks_ book_3_3)) ->
                           getQuantity r <= 2 ^ 53).
  { intros r [<-|[<-|[]]]; vm_compute; discriminate. }
  split; [exact (reachable_book_ok _ reachable_book_3_3)|].
  split; [exact Hq|]. split; [exact Hall|].
  exact (quantity_conservation int32_succ book_3_3 (ord 3 Limit Buy 5 100) 1
           (reachable_book_ok _ reachable_book_3_3) Hq Hall).
Defined.

(** ** The FOK pre-check and what follows it *)

Lemma canFOKfill_r_opp dadd b o :
  canFOKfill_r dadd b o = canFOKfill_scan_r dadd o (opp_side (getSide o) b) 0.
Proof. unfold canFOKfill_r. destruct (getSide o); reflexivity. Qed.

(** X6.  Run with [double] addition: on a well-formed book (as every
    reachable book is) where the quantities resting on the opposite side
    add up to no more than 2^53 units, [canFOKfill] accepts a FOK order
    exactly when the whole opposite side, at whatever prices, holds at
    least the quantity of the order; the price of the order plays no
    part. *)
Theorem canFOKfill_fok_iff_total b o :
  book_ok b ->
  getType o = FOK ->
  side_total (opp_side (getSide o) b) <= 2 ^ 53 ->
  canFOKfill_r double_add b o = true
  <-> getQuantity o <= side_total (opp_side (getSide o) b).
Proof.
  intros Hok Hfok Hb.
  destruct (book_ok_sides (getSide o) b Hok) as [_ Hopp].
  assert (Hnl : getType o <> Limit) by congruence.
  rewrite canFOKfill_r_opp.
  rewrite (canFOKfill_scan_r_within double_add double_add_exact
             (other_side (getSide o))) by (assumption || lia).
  split.
  - intros H. eapply canFOKfill_scan_enough in H; [lia|assumption|eassumption].
  - intros H. eapply canFOKfill_scan_complete; [assumption|eassumption|lia].
Qed.

Lemma canFOKfill_fok_iff_total_witness :
  book_ok book_3_far
  /\ getType (ord 3 FOK Buy 6 100) = FOK
  /\ side_total (asks_ book_3_far) <= 2 ^ 53
  /\ (canFOKfill_r double_add book_3_far (ord 3 FOK Buy 6 100) = true
      <-> 6 <= side_total (asks_ book_3_far)).
Proof.
  assert (Hb : side_total (asks_ book_3_far) <= 2 ^ 53) by (vm_compute; discriminate).
  split; [exact (reachable_book_ok _ reachable_book_3_far)|].
  split; [reflexivity|]. split; [exact Hb|].
  exact (canFOKfill_fok_iff_total book_3_far (ord 3 FOK Buy 6 100)
           (reachable_book_ok _ reachable_book_3_far) eq_refl Hb).
Defined.

(** X22.  Run with [double] addition and subtraction and any counter: on
    a well-formed book (as every reachable book is) where the quantities
    resting on the opposite side add up to no more than 2^53 units,
    [processOrder] returns for a FOK order, and either its trades add up
    to exactly the quantity of the order, or there is no trade and the
    book is the one it was given. *)
Theorem fok_atomicity_within_53_bits int_succ b o tid :
  book_ok b ->
  getType o = FOK ->
  side_total (opp_side (getSide o) b) <= 2 ^ 53 ->
  exists ts o' b' tid',
    processOrder_r double_add double_sub int_succ b o tid = Some (ts, o', b', tid')
    /\ (trade_total ts = getQuantity o \/ (ts = [] /\ b' = b)).
Proof.
  intros Hok Hfok Hb.
  destruct (book_ok_sides (getSide o) b Hok) as [_ Hopp].
  destruct (processOrder_r_total double_add double_sub int_succ double_sub_diag
              b o tid (side_ok_queues_nonempty _ _ Hopp))
    as (ts & o' & b' & tid' & Hp).
  exists ts, o', b', tid'. split; [assumption|].
  apply processOrder_r_sides in Hp
    as [(_ & _ & -> & _ & -> & _)
       |(st' & Hcan & Hloop & -> & -> & _ & Hopp' & Hown')];
    [right; split; reflexivity|].
  specialize (Hcan Hfok).
  assert (Henough : getQuantity o <= side_total (opp_side (getSide o) b)).
  { rewrite canFOKfill_r_opp in Hcan.
    rewrite (canFOKfill_scan_r_within double_add double_add_exact
               (other_side (getSide o))) in Hcan by (assumption || lia).
    eapply canFOKfill_scan_enough in Hcan; [lia|congruence|eassumption]. }
  pose proof (side_ok_positive _ _ Hopp) as Hpos.
  pose proof (loop_run_r_taker _ _ _ _ _ Hloop) as Htk.
  destruct (loop_run_r_within double_sub int_succ double_sub_exact _ _ _ Hloop)
    as (new & Htr & Htk' & Hnn & Hside).
  { unfold start_state. cbn [taker]. lia. }
  { apply within53_of_bound; [exact Hpos|].
    intros r Hr. pose proof (total_bounds_each _ r Hpos Hr) as Hle.
    unfold side_total in Hb. unfold start_state in Hr. cbn [opposite] in Hr.
    unfold start_state in Hle. cbn [opposite] in Hle. lia. }
  unfold start_state in Htk, Htr, Htk', Hnn, Hside.
  cbn [trades taker opposite app] in Htk, Htr, Htk', Hnn, Hside.
  subst new.
  assert (Hq' : getQuantity (taker st') = getQuantity o - trade_total (trades st'))
    by (rewrite Htk'; reflexivity).
  destruct (Z.le_gt_cases (getQuantity o) 0) as [Hq|Hq].
  { right.
    assert (st' = start_state b o tid) as ->.
    { eapply loop_run_r_no_quantity; [exact Hloop|exact Hq]. }
    split; [reflexivity|].
    unfold start_state in Hopp', Hown'. cbn [taker opposite] in Hopp', Hown'.
    rewrite Hfok in Hown'. rewrite andb_false_r in Hown'.
    destruct b as [ba bb], b' as [ba' bb'].
    destruct (getSide o); simpl in Hopp', Hown'; congruence. }
  left. specialize (Hnn ltac:(lia)).
  apply loop_run_r_exit, match_step_r_exit in Hloop as [Hz|[Hnil|Hlim]].
  - lia.
  - rewrite Hnil in Hside. change (side_total []) with 0 in Hside. lia.
  - rewrite Htk in Hlim. simpl in Hlim. congruence.
Qed.

Lemma fok_atomicity_within_53_bits_witness :
  book_ok book_3_3
  /\ getType (ord 3 FOK Buy 6 101) = FOK
  /\ side_total (asks_ book_3_3) <= 2 ^ 53
  /\ exists ts o' b' tid',
       processOrder_r double_add double_sub int32_succ
         book_3_3 (ord 3 FOK Buy 6 101) 1 = Some (ts, o', b', tid')
       /\ (trade_total ts = 6 \/ (ts = [] /\ b' = book_3_3)).
Proof.
  assert (Hb : side_total (asks_ book_3_3) <= 2 ^ 53) by (vm_compute; discriminate).
  split; [exact (reachable_book_ok _ reachable_book_3_3)|].
  split; [reflexivity|]. split; [exact Hb|].
  exact (fok_atomicity_within_53_bits int32_succ book_3_3 (ord 3 FOK Buy 6 101) 1
           (reachable_book_ok _ reachable_book_3_3) eq_refl Hb).
Defined.

(** * Rounding never empties or enlarges a resting order *)

Lemma round53_multiple y :
  2 ^ 53 <= y -> round53 y = y -> exists K, y = K * 2 ^ (Z.log2 y - 52).
Proof.
  intros Hy H. unfold round53 in H.
  assert (Hpos : 0 < y) by (assert (0 < 2 ^ 53) by (apply Z.pow_pos_nonneg; lia); lia).
  rewrite Z.abs_eq in H by lia.
  destruct (Z.ltb_spec y (2 ^ 53)); [lia|].
  rewrite (Z.sgn_pos y) in H by lia. rewrite Z.mul_1_l in H.
  eexists. symmetry. exact H.
Qed.

(** Rounding a positive number that lies below a [double] gives a
    positive number that still lies below it. *)
Lemma round53_below x y :
  0 < x <= y -> round53 y = y -> 0 < round53 x <= y.
Proof.
  intros Hx Hy. unfold round53.
  rewrite Z.abs_eq by lia.
  destruct (Z.ltb_spec x (2 ^ 53)) as [|Hbig]; [lia|].
  rewrite (Z.sgn_pos x) by lia. rewrite Z.mul_1_l.
  assert (H53 : 53 <= Z.log2 x).
  { rewrite <- (Z.log2_pow2 53) by lia. apply Z.log2_le_mono. exact Hbig. }
  set (e := Z.log2 x - 52).
  assert (HP : 0 < 2 ^ e) by (apply Z.pow_pos_nonneg; lia).
  assert (Hlow : 2 ^ 52 * 2 ^ e <= x).
  { rewrite <- Z.pow_add_r by lia. replace (52 + e) with (Z.log2 x) by lia.
    apply Z.log2_spec. lia. }
  assert (Hm : 2 ^ 52 <= x / 2 ^ e).
  { apply Z.div_le_lower_bound; [assumption|]. lia. }
  pose proof (Z.div_mod x (2 ^ e) ltac:(lia)) as Hdm.
  pose proof (Z.mod_pos_bound x (2 ^ e) HP) as Hr.
  assert (Hhalf : 0 < 2 ^ (e - 1)) by (apply Z.pow_pos_nonneg; lia).
  assert (H52 : 0 < 2 ^ 52) by (apply Z.pow_pos_nonneg; lia).
  set (P := 2 ^ e) in *. set (m := x / P) in *. set (r := x mod P) in *.
  destruct ((2 ^ (e - 1) <? r) || ((r =? 2 ^ (e - 1)) && Z.odd m)) eqn:Hup.
  - assert (Hrpos : 0 < r).
    { apply orb_true_iff in Hup as [Hup|Hup].
      - apply Z.ltb_lt in Hup. lia.
      - apply andb_true_iff in Hup as [Hup _]. apply Z.eqb_eq in Hup. lia. }
    destruct (round53_multiple y ltac:(lia) Hy) as (K & HK).
    assert (Hey : Z.log2 x <= Z.log2 y) by (apply Z.log2_le_mono; lia).
    assert (Hsplit : 2 ^ (Z.log2 y - 52) = 2 ^ (Z.log2 y - Z.log2 x) * P).
    { unfold P, e. rewrite <- Z.pow_add_r by lia. f_equal. lia. }
    rewrite Hsplit in HK.
    set (K' := K * 2 ^ (Z.log2 y - Z.log2 x)) in *.
    assert (HK' : y = K' * P) by (unfold K'; lia).
    split; [nia|].
    assert (m < K') by nia. nia.
  - split; nia.
Qed.

Section DoubleRemainder.

Variable int_succ : Z -> Z.

(** One run of the body with [double] subtraction: the front order is
    used up and popped, or it stays, with a positive quantity no larger
    than it had, and the taker is left with nothing. *)
Lemma match_step_double_cases s st st1 :
  match_step_r double_sub int_succ s st = LoopNext st1 ->
  Forall (fun r => 0 < getQuantity r /\ round53 (getQuantity r) = getQuantity r)
         (priority_order (opposite st)) ->
  exists t m rest0,
    trades st1 = trades st ++ [t]
    /\ priority_order (opposite st) = m :: rest0
    /\ (priority_order (opposite st1) = rest0
        \/ (getQuantity (taker st1) = 0
            /\ exists q, 0 < q <= getQuantity m
                         /\ priority_order (opposite st1) = setQuantity m q :: rest0)).
Proof.
  unfold match_step_r. intros H Hw.
  destruct (0 <? getQuantity (taker st)) eqn:Hpos; simpl in H; [|discriminate].
  apply Z.ltb_lt in Hpos.
  destruct (opposite st) as [|[key queue] others]; [discriminate|].
  destruct queue as [|resting queue_tail]; [discriminate|].
  destruct (OrderType_eqb (getType (taker st)) Limit
            && price_worse s (getPrice (taker st)) (getPrice resting));
    [discriminate|].
  rewrite priority_order_cons in Hw. cbn [app] in Hw.
  inversion Hw as [|? ? [Hres Hdbl] _]; subst.
  rewrite priority_order_cons. cbn [app].
  destruct (Z.le_gt_cases (getQuantity resting) (getQuantity (taker st))) as [Hle|Hlt].
  - rewrite Z.min_r in H by assumption.
    assert (Hr : getQuantity (reduceQuantity_r double_sub resting (getQuantity resting)) = 0).
    { unfold reduceQuantity_r.
      rewrite Z.leb_refl, getQuantity_setQuantity. apply double_sub_diag. }
    rewrite Hr in H. cbn in H. injection H as <-. cbn [trades opposite].
    eexists _, resting, _. split; [reflexivity|]. split; [reflexivity|].
    left. now destruct queue_tail.
  - rewrite Z.min_l in H by lia.
    assert (Hq : 0 < double_sub (getQuantity resting) (getQuantity (taker st))
                 <= getQuantity resting).
    { unfold double_sub. apply round53_below; [lia|assumption]. }
    assert (Hr : reduceQuantity_r double_sub resting (getQuantity (taker st))
                 = setQuantity resting
                     (double_sub (getQuantity resting) (getQuantity (taker st)))).
    { unfold reduceQuantity_r.
      destruct (Z.leb_spec (getQuantity (taker st)) (getQuantity resting)); [|lia].
      reflexivity. }
    rewrite Hr, getQuantity_setQuantity in H.
    destruct (Z.eqb_spec (double_sub (getQuantity resting) (getQuantity (taker st))) 0);
      [lia|].
    injection H as <-. cbn [trades opposite taker].
    eexists _, resting, _. split; [reflexivity|]. split; [reflexivity|].
    right. split.
    + unfold reduceQuantity_r. rewrite Z.leb_refl, getQuantity_setQuantity.
      apply double_sub_diag.
    + eexists. split; [exact Hq|]. rewrite priority_order_cons. reflexivity.
Qed.

Lemma loop_run_double_remaining s st st' :
  loop_run_r double_sub int_succ s st st' ->
  Forall (fun r => 0 < getQuantity r /\ round53 (getQuantity r) = getQuantity r)
         (priority_order (opposite st)) ->
  exists new filled rest,
    trades st' = trades st ++ new
    /\ priority_order (opposite st) = filled ++ rest
    /\ ((length new = length filled
         /\ priority_order (opposite st') = rest)
        \/ exists m rest0 q,
             rest = m :: rest0
             /\ length new = S (length filled)
             /\ 0 < q <= getQuantity m
             /\ priority_order (opposite st') = setQuantity m q :: rest0).
Proof.
  induction 1 as [st _|st st1 st' Hstep Hrun IH]; intros Hw.
  - exists [], [], (priority_order (opposite st)).
    rewrite app_nil_r. split; [reflexivity|]. split; [reflexivity|].
    left. split; reflexivity.
  - destruct (match_step_double_cases _ _ _ Hstep Hw)
      as (t & m & rest0 & Ht0 & Hprio0 & [Hpop|(Hzero & q & Hq & Hstay)]).
    + subst rest0. rewrite Hprio0 in Hw. apply Forall_inv_tail in Hw.
      destruct (IH Hw) as (new1 & filled1 & rest & Htr & Hprio & Hleft).
      exists (t :: new1), (m :: filled1), rest.
      split; [rewrite Htr, Ht0, <- app_assoc; reflexivity|].
      split; [rewrite Hprio0, Hprio; reflexivity|].
      destruct Hleft as [[Hlen Hrest]|(m1 & rest1 & q1 & Hm & Hlen & Hq' & Hrest)].
      * left. split; [cbn [length]; lia|assumption].
      * right. exists m1, rest1, q1. repeat split; try assumption || lia.
        cbn [length]; lia.
    + assert (st' = st1) as ->.
      { eapply loop_run_r_no_quantity; [eassumption|lia]. }
      exists [t], [], (m :: rest0).
      split; [exact Ht0|]. split; [exact Hprio0|].
      right. exists m, rest0, q. repeat split; assumption || lia.
Qed.

End DoubleRemainder.

(** X10.  Run with [double] addition and subtraction and any counter: on
    a well-formed book (as every reachable book is) whose resting
    quantities on the opposite side are [double]s, [processOrder] takes
    resting orders off that side only from the front of its price-time
    order and leaves the rest untouched and in place: that order splits
    into the orders filled completely, which are gone, and the rest,
    which is what the book holds afterwards -- as it was when every trade
    filled its maker, and otherwise with its first order left, by the
    last trade, with a positive quantity no larger than it had.  So a
    call makes at most as many trades as there were resting orders on
    that side. *)
Theorem opposite_side_remainder int_succ b o tid :
  book_ok b ->
  (forall r, In r (priority_order (opp_side (getSide o) b)) ->
             round53 (getQuantity r) = getQuantity r) ->
  exists ts o' b' tid',
    processOrder_r double_add double_sub int_succ b o tid = Some (ts, o', b', tid')
    /\ (length ts <= order_count (opp_side (getSide o) b))%nat
    /\ exists filled rest,
         priority_order (opp_side (getSide o) b) = filled ++ rest
         /\ ((length ts = length filled
              /\ priority_order (opp_side (getSide o) b') = rest)
             \/ exists m rest0 q,
                  rest = m :: rest0
                  /\ length ts = S (length filled)
                  /\ 0 < q <= getQuantity m
                  /\ priority_order (opp_side (getSide o) b')
                     = setQuantity m q :: rest0).
Proof.
  intros Hok Hdbl.
  destruct (book_ok_sides (getSide o) b Hok) as [_ Hopp].
  destruct (processOrder_r_total double_add double_sub int_succ double_sub_diag
              b o tid (side_ok_queues_nonempty _ _ Hopp))
    as (ts & o' & b' & tid' & Hp).
  exists ts, o', b', tid'. split; [assumption|].
  assert (Hstruct :
    exists filled rest,
      priority_order (opp_side (getSide o) b) = filled ++ rest
      /\ ((length ts = length filled
           /\ priority_order (opp_side (getSide o) b') = rest)
          \/ exists m rest0 q,
               rest = m :: rest0
               /\ length ts = S (length filled)
               /\ 0 < q <= getQuantity m
               /\ priority_order (opp_side (getSide o) b')
                  = setQuantity m q :: rest0)).
  { apply processOrder_r_sides in Hp
      as [(_ & _ & -> & _ & -> & _)|(st' & _ & Hloop & -> & _ & _ & Hopp' & _)].
    - exists [], (priority_order (opp_side (getSide o) b)).
      split; [reflexivity|]. left. split; reflexivity.
    - apply loop_run_double_remaining in Hloop
        as (new & filled & rest & Htr & Hprio & Hcase).
      + unfold start_state in Htr, Hprio. cbn [trades opposite app] in Htr, Hprio.
        subst new. rewrite Hopp'. exists filled, rest. split; assumption.
      + unfold start_state. cbn [opposite].
        apply List.Forall_forall. intros r Hr. split; [|now apply Hdbl].
        now apply (proj1 (List.Forall_forall _ _) (side_ok_positive _ _ Hopp)). }
  destruct Hstruct as (filled & rest & Hprio & Hcase).
  split.
  - rewrite <- length_priority_order, Hprio, length_app.
    destruct Hcase as [[-> _]|(m & rest0 & q & -> & -> & _)]; cbn [length]; lia.
  - exists filled, rest. split; assumption.
Qed.

Lemma opposite_side_remainder_witness :
  book_ok book_3_3
  /\ (forall r, In r (priority_order (asks_ book_3_3)) ->
                round53 (getQuantity r) = getQuantity r)
  /\ exists ts o' b' tid',
       processOrder_r double_add double_sub int32_succ
         book_3_3 (ord 3 Market Buy 5 0) 1 = Some (ts, o', b', tid')
       /\ (length ts <= order_count (asks_ book_3_3))%nat
       /\ exists filled rest,
            priority_order (asks_ book_3_3) = filled ++ rest
            /\ ((length ts = length filled
                 /\ priority_order (asks_ b') = rest)
                \/ exists m rest0 q,
                     rest = m :: rest0
                     /\ length ts = S (length filled)
                     /\ 0 < q <= getQuantity m
                     /\ priority_order (asks_ b') = setQuantity m q :: rest0).
Proof.
  assert (Hdbl : forall r, In r (priority_order (asks_ book_3_3)) ->
                           round53 (getQuantity r) = getQuantity r).
  { intros r [<-|[<-|[]]]; reflexivity. }
  split; [exact (reachable_book_ok _ reachable_book_3_3)|]. split; [exact Hdbl|].
  exact (opposite_side_remainder int32_succ book_3_3 (ord 3 Market Buy 5 0) 1
           (reachable_book_ok _ reachable_book_3_3) Hdbl).
Defined.

(** A resting order too large to lose one unit: 10^17 at 100, hit by a
    market buy of 1.  The trade is made, the taker is done, and the
    resting order is left as it was. *)
Example large_maker_keeps_its_quantity :
  round53 (10 ^ 17) = 10 ^ 17
  /\ processOrder_r double_add double_sub int32_succ
       {| asks_ := [(100, [ord 1 Limit Sell (10 ^ 17) 100])]; bids_ := [] |}
       (ord 2 Market Buy 1 0) 1
     = Some ([mkTrade 1 1 2 100 1 Buy "BTC-USDT"], ord 2 Market Buy 0 0,
             {| asks_ := [(100, [ord 1 Limit Sell (10 ^ 17) 100])]; bids_ := [] |}, 2).
Proof. split; vm_compute; reflexivity. Qed.
